(** * CloudWatch Logs output plugin: destination routing and mode switching

    A shallow embedding of [plugins/outputs/cloudwatchlogs/cloudwatchlogs.go].
    Go maps are finite maps, the [*cwDest] pointers stored in [cwDests] are
    locations of an explicit store, and the logger is the list of entries
    written to it. *)

From Stdlib Require Import ZArith Ascii String List Bool Lia.
From Stdlib Require Import SpecFloat.
From stdpp Require Import base option list strings gmap fin_maps.

Local Open Scope string_scope.

(** ** The parts of Go's [strings] package the plugin calls *)

Module GoStrings.

(** [strings.HasPrefix(s, p)] *)
Fixpoint HasPrefix (s p : string) : bool :=
  match p, s with
  | EmptyString, _ => true
  | String _ _, EmptyString => false
  | String a p', String b s' => Ascii.eqb a b && HasPrefix s' p'
  end.

(** [strings.Contains(s, sub)]: [sub] starts at some offset of [s]. *)
Fixpoint Contains (s sub : string) : bool :=
  HasPrefix s sub ||
  match s with
  | EmptyString => false
  | String _ s' => Contains s' sub
  end.

(** [strings.HasSuffix(s, suf)]: [s] from some offset on is [suf]. *)
Fixpoint HasSuffix (s suf : string) : bool :=
  String.eqb s suf ||
  match s with
  | EmptyString => false
  | String _ s' => HasSuffix s' suf
  end.

(** [strings.Split(s, sep)] for a one-byte separator: the fields between
    the separators, an empty input giving one empty field. *)
Fixpoint Split (s : string) (sep : ascii) : list string :=
  match s with
  | EmptyString => [EmptyString]
  | String a s' =>
      if Ascii.eqb a sep then EmptyString :: Split s' sep
      else match Split s' sep with
           | [] => [String a EmptyString]
           | w :: ws => String a w :: ws
           end
  end.

End GoStrings.

(** ** Data model *)

(** [time.Duration]: a count of nanoseconds. *)
Definition Duration := Z.
Definition Second : Duration := 1000000000%Z.
Definition Minute : Duration := (60 * Second)%Z.
Definition Hour : Duration := (60 * Minute)%Z.

(** [time.Time], as far as the plugin looks at it: [Unix()] is [unixSec]. *)
Record Time := mkTime { unixSec : Z; nanos : Z }.

Definition Unix (t : Time) : Z := unixSec t.

(** Go's [float64]: IEEE 754 binary64, with the conversion [float64(n)] of an
    integer rounding to nearest, ties to even. *)
Definition float64 := spec_float.

Definition float64_of_Z (n : Z) : float64 := binary_normalize 53 1024 n 0 false.

Definition float64_finite (f : float64) : bool :=
  match f with
  | S754_zero _ | S754_finite _ _ _ => true
  | S754_infinity _ | S754_nan => false
  end.

(** The dynamic type of a field value, [interface{}] in the source: the types
    the type switch of [getLogEventFromMetric] names, and [VOther] for a value
    of any other type, kept with the name [%T] prints. *)
Inductive value :=
| VInt (n : Z)
| VInt32 (n : Z)
| VInt64 (n : Z)
| VUint (n : Z)
| VUint32 (n : Z)
| VUint64 (n : Z)
| VFloat64 (f : float64)
| VBool (b : bool)
| VString (s : string)
| VTime (t : Time)
| VOther (type_name : string).

(** [telegraf.Metric]: name, string tags, typed fields, timestamp. *)
Record Metric := mkMetric {
  Name : string;
  Tags : gmap string string;
  Fields : gmap string value;
  MTime : Time
}.

Definition HasField (m : Metric) (k : string) : bool :=
  bool_decide (is_Some (Fields m !! k)).

Definition RemoveTag (k : string) (m : Metric) : Metric :=
  mkMetric (Name m) (delete k (Tags m)) (Fields m) (MTime m).

Definition RemoveField (k : string) (m : Metric) : Metric :=
  mkMetric (Name m) (Tags m) (delete k (Fields m)) (MTime m).

(** Constants of the plugin. *)
Definition LogGroupNameTag := "log_group_name".
Definition LogStreamNameTag := "log_stream_name".
Definition LogTimestampField := "log_timestamp".
Definition LogEntryField := "value".
Definition attributesInFields := "attributesInFields".

Definition defaultFlushTimeout : Duration := (5 * Second)%Z.
Definition maxRetryTimeout : Duration := (14 * 24 * Hour + 10 * Minute)%Z.
Definition metricRetryTimeout : Duration := (2 * Minute)%Z.

(** [Target]: the key of the destination map. *)
Record Target := mkTarget { Group : string; Stream : string }.

#[global] Instance Target_eq_dec : EqDecision Target.
Proof. solve_decision. Defined.

#[global] Instance Target_countable : Countable Target :=
  inj_countable' (fun t => (Group t, Stream t)) (fun p => mkTarget p.1 p.2)
    (fun t => match t with mkTarget _ _ => eq_refl end).

(** [logs.LogEvent] and its implementation [structuredLogEvent]: a message and
    a timestamp ([Done] does nothing). *)
Record structuredLogEvent := mkEvent { msg : string; t : Time }.

Definition Message (e : structuredLogEvent) : string := msg e.

(** ** The delivery client and the pusher, as the plugin sees them *)

(** Modelled from the spec: package [handlers] is not among the sources. A
    request handler pushed on the client's build chain is kept as the call
    that made it: the compression handler for the listed operations, or a
    custom header with its name and value. A handler the SDK installs itself
    is kept by the name the SDK gives it. *)
Inductive handler :=
| RequestCompressionHandler (ops : list string)
| CustomHeaderHandler (header val : string)
| SDKHandler (name : string).

#[global] Instance handler_eq_dec : EqDecision handler.
Proof. solve_decision. Defined.

Definition emfHeader : handler := CustomHeaderHandler "x-amzn-logs-format" "json/emf".

(** [configaws.CredentialConfig] as [getDest] fills it. *)
Record CredentialConfig := mkCredentialConfig {
  credRegion : string;
  credAccessKey : string;
  credSecretKey : string;
  credRoleARN : string;
  credProfile : string;
  credFilename : string;
  credToken : string
}.

(** [request.Retryer] values are opaque to the plugin: the retryer the SDK
    gives a new client, or one handed to [setRetryer]. *)
Inductive Retryer :=
| RetryerId (n : nat)
| DefaultRetryer.

(** The SDK client [*cloudwatchlogs.CloudWatchLogs]: [Build] is
    [Handlers.Build], in the order [PushBackNamed] appended to it. *)
Record Client := mkClient {
  Credentials : CredentialConfig;
  Endpoint : string;
  Build : list handler;
  ClientRetryer : option Retryer
}.

Definition PushBackNamed (h : handler) (cl : Client) : Client :=
  mkClient (Credentials cl) (Endpoint cl) (Build cl ++ [h]) (ClientRetryer cl).

(** The build handlers a client has when [cloudwatchlogs.New] returns it: the
    two user-agent handlers of the SDK's default handlers, then the build
    handler of the JSON-RPC protocol. *)
Definition sdkBuildHandlers : list handler :=
  [SDKHandler "core.SDKVersionUserAgentHandler";
   SDKHandler "core.AddHostExecEnvUserAgentHander";
   SDKHandler "awssdk.jsonrpc.Build"].

(** [cloudwatchlogs.New] on the credentials and the endpoint: the SDK's own
    build handlers and its default retryer. *)
Definition cloudwatchlogsNew (creds : CredentialConfig) (endpoint : string) : Client :=
  mkClient creds endpoint sdkBuildHandlers (Some DefaultRetryer).

(** The [Service] field of a pusher is an interface: the SDK client, or some
    other implementation on which the type assertions of the plugin fail. *)
Inductive service :=
| SDKClient (cl : Client)
| OtherService.

(** What the plugin asks of its pusher, in call order. *)
Inductive pusherCall :=
| CallAddEvent (e : structuredLogEvent)
| CallAddEventNonBlocking (e : structuredLogEvent)
| CallStop.

(** Modelled from the spec: [pusher.go] is not among the sources. The plugin
    reads and writes the fields [Service] and [RetryDuration] and calls
    [AddEvent], [AddEventNonBlocking] and [Stop]; the pusher is its target,
    these two fields, the flush interval, and the calls received so far. *)
Record pusher := mkPusher {
  PTarget : Target;
  Service : service;
  FlushTimeout : Duration;
  RetryDuration : Duration;
  received : list pusherCall
}.

(** Modelled from the spec: [NewPusher] is not among the sources; a new
    pusher is bound to the target and the client and starts with the retry
    duration it is given. *)
Definition NewPusher (tg : Target) (svc : service)
    (flushTimeout retryDuration : Duration) : pusher :=
  mkPusher tg svc flushTimeout retryDuration [].

Definition pusherReceives (c : pusherCall) (p : pusher) : pusher :=
  mkPusher (PTarget p) (Service p) (FlushTimeout p) (RetryDuration p)
    (received p ++ [c]).

Definition setService (svc : service) (p : pusher) : pusher :=
  mkPusher (PTarget p) svc (FlushTimeout p) (RetryDuration p) (received p).

Definition setRetryDuration (d : Duration) (p : pusher) : pusher :=
  mkPusher (PTarget p) (Service p) (FlushTimeout p) d (received p).

(** ** [cwDest] and its methods *)

Record cwDest := mkDest {
  cwPusher : pusher;
  isEMF : bool;
  stopped : bool
}.

(** The errors of the package: [logs.ErrOutputStopped], which [Publish]
    returns, and the one [getTargetFromMetric] makes for a record without a
    log group name. *)
Inductive error :=
| ErrOutputStopped
| ErrNoLogGroup (name : string).

(** [switchToEMF]: under the destination's lock, the first call sets the flag
    and, when the service is the SDK client, appends the header handler. *)
Definition switchToEMF (cd : cwDest) : cwDest :=
  if negb (isEMF cd) then
    let p := cwPusher cd in
    let p' := match Service p with
              | SDKClient cwl => setService (SDKClient (PushBackNamed emfHeader cwl)) p
              | OtherService => p
              end in
    mkDest p' true (stopped cd)
  else cd.

Definition AddEvent (e : structuredLogEvent) (cd : cwDest) : cwDest :=
  if isEMF cd then
    mkDest (pusherReceives (CallAddEventNonBlocking e) (cwPusher cd)) (isEMF cd) (stopped cd)
  else
    mkDest (pusherReceives (CallAddEvent e) (cwPusher cd)) (isEMF cd) (stopped cd).

(** The marker [Publish] looks for: the key [CloudWatchMetrics] between
    double quotes (byte 34). *)
Definition emfMarker : string :=
  String (ascii_of_nat 34) ("CloudWatchMetrics" ++ String (ascii_of_nat 34) EmptyString).

(** The syntactic test [Publish] applies to a message in plain mode. *)
Definition looksLikeEMF (m : string) : bool :=
  GoStrings.HasPrefix m "{" && GoStrings.HasSuffix m "}"
  && GoStrings.Contains m emfMarker.

(** One iteration of the loop of [Publish]. *)
Definition publishOne (cd : cwDest) (e : structuredLogEvent) : cwDest :=
  let cd1 := if negb (isEMF cd)
             then if looksLikeEMF (Message e) then switchToEMF cd else cd
             else cd in
  AddEvent e cd1.

Definition Publish (events : list structuredLogEvent) (cd : cwDest) : cwDest * option error :=
  let cd' := fold_left publishOne events cd in
  (cd', if stopped cd' then Some ErrOutputStopped else None).

Definition Stop (cd : cwDest) : cwDest :=
  mkDest (pusherReceives CallStop (cwPusher cd)) (isEMF cd) true.

Definition setRetryer (r : Retryer) (cd : cwDest) : cwDest :=
  match Service (cwPusher cd) with
  | SDKClient cwl =>
      mkDest (setService (SDKClient (mkClient (Credentials cwl) (Endpoint cwl) (Build cwl) (Some r)))
                (cwPusher cd))
        (isEMF cd) (stopped cd)
  | OtherService => cd
  end.

(** ** The plugin *)

(** What the plugin writes to its logger [c.Log]. *)
Inductive logEntry :=
| ErrorFailedToFindTarget (err : error)
| WarnNoDestination (group stream : string)
| WarnValueNotString (fields : gmap string value)
| ErrorUnexpectedField (k : string) (v : value)
| ErrorMarshal.

(** A [*cwDest] is a location of the store of destinations. *)
Abbreviation loc := nat (only parsing).

Record CloudWatchLogs := mkCloudWatchLogs {
  Region : string;
  EndpointOverride : string;
  AccessKey : string;
  SecretKey : string;
  RoleARN : string;
  Profile : string;
  Filename : string;
  Token : string;
  LogStreamName : string;
  LogGroupName : string;
  ForceFlushInterval : Duration;
  Log : list logEntry;
  cwDests : gmap Target loc
}.

Definition logf (l : logEntry) (c : CloudWatchLogs) : CloudWatchLogs :=
  mkCloudWatchLogs (Region c) (EndpointOverride c) (AccessKey c) (SecretKey c)
    (RoleARN c) (Profile c) (Filename c) (Token c) (LogStreamName c)
    (LogGroupName c) (ForceFlushInterval c) (Log c ++ [l]) (cwDests c).

Definition setDests (d : gmap Target loc) (c : CloudWatchLogs) : CloudWatchLogs :=
  mkCloudWatchLogs (Region c) (EndpointOverride c) (AccessKey c) (SecretKey c)
    (RoleARN c) (Profile c) (Filename c) (Token c) (LogStreamName c)
    (LogGroupName c) (ForceFlushInterval c) (Log c) d.

(** The plugin together with the destinations its map points to: [heap !! l]
    is the [cwDest] at location [l], and a new one is allocated at the end. *)
Record state := mkState {
  plugin : CloudWatchLogs;
  heap : list cwDest
}.

Definition modifyDest (l : loc) (f : cwDest -> cwDest) (h : list cwDest) : list cwDest :=
  match h !! l with
  | Some cd => <[l := f cd]> h
  | None => h
  end.

Section Plugin.

(** [encoding/json]'s [Marshal] on the content map ([None]: it returned an
    error) and [agentinfo.UserAgent()] are outside the plugin. *)
Variable json_Marshal : gmap string value -> option string.
Variable UserAgent : string.

Definition newClient (c : CloudWatchLogs) : Client :=
  let credentialConfig :=
    mkCredentialConfig (Region c) (AccessKey c) (SecretKey c) (RoleARN c)
      (Profile c) (Filename c) (Token c) in
  let client := cloudwatchlogsNew credentialConfig (EndpointOverride c) in
  let client := PushBackNamed (RequestCompressionHandler ["PutLogEvents"]) client in
  PushBackNamed (CustomHeaderHandler "User-Agent" UserAgent) client.

Definition newDest (c : CloudWatchLogs) (tg : Target) : cwDest :=
  let pusher := NewPusher tg (SDKClient (newClient c)) (ForceFlushInterval c) maxRetryTimeout in
  mkDest pusher false false.

Definition getDest (tg : Target) (s : state) : loc * state :=
  match cwDests (plugin s) !! tg with
  | Some cwd => (cwd, s)
  | None =>
      let cwd := length (heap s) in
      (cwd, mkState (setDests (<[tg := cwd]> (cwDests (plugin s))) (plugin s))
              (heap s ++ [newDest (plugin s) tg]))
  end.

Definition CreateDest (group stream : string) (s : state) : loc * state :=
  let group := if String.eqb group "" then LogGroupName (plugin s) else group in
  let stream := if String.eqb stream "" then LogStreamName (plugin s) else stream in
  getDest (mkTarget group stream) s.

Definition getTargetFromMetric (c : CloudWatchLogs) (m : Metric)
  : Target * option error * Metric :=
  let tags := Tags m in
  match tags !! LogGroupNameTag with
  | None => (mkTarget "" "", Some (ErrNoLogGroup (Name m)), m)
  | Some logGroup =>
      let m := RemoveTag LogGroupNameTag m in
      match tags !! LogStreamNameTag with
      | Some logStream => (mkTarget logGroup logStream, None, RemoveTag LogStreamNameTag m)
      | None => (mkTarget logGroup (LogStreamName c), None, m)
      end
  end.

(** The type switch on a remaining field. *)
Definition convertField (v : value) : option value :=
  match v with
  | VInt n | VInt32 n | VInt64 n | VUint n | VUint32 n | VUint64 n =>
      Some (VFloat64 (float64_of_Z n))
  | VFloat64 f => Some (VFloat64 f)
  | VBool b => Some (VBool b)
  | VString x => Some (VString x)
  | VTime tm => Some (VFloat64 (float64_of_Z (Unix tm)))
  | VOther _ => None
  end.

(** The loop over the remaining fields, in the order the map is ranged over;
    it stops at the first field the switch does not cover. *)
Fixpoint convertFields (kvs : list (string * value)) (content : gmap string value)
  : gmap string value + (string * value) :=
  match kvs with
  | [] => inl content
  | (k, v) :: rest =>
      match convertField v with
      | Some x => convertFields rest (<[k := x]> content)
      | None => inr (k, v)
      end
  end.

(** One iteration of the loop over [attributesInFields]; [mFields] is the
    copy of the fields taken before the loop. *)
Definition promoteField (mFields : gmap string value)
    (acc : gmap string value * Metric) (attr : string) : gmap string value * Metric :=
  match mFields !! attr with
  | Some fieldVal => (<[attr := fieldVal]> acc.1, RemoveField attr acc.2)
  | None => acc
  end.

Definition copyTag (content : gmap string value) (kv : string * string) : gmap string value :=
  <[kv.1 := VString kv.2]> content.

(** The content map of a record without a raw entry field, with the metric as
    the promotions leave it; [inr] is the field that stopped the conversion. *)
Definition buildContent (metric : Metric) : (gmap string value * Metric) + (string * value) :=
  let content : gmap string value := ∅ in
  let tags := Tags metric in
  let '(content, metric, tags) :=
    match tags !! attributesInFields with
    | Some val =>
        let attributes := GoStrings.Split val "," in
        let mFields := Fields metric in
        let '(content, metric) := fold_left (promoteField mFields) attributes (content, metric) in
        (content, RemoveTag attributesInFields metric, delete attributesInFields tags)
    | None => (content, metric, tags)
    end in
  let content := fold_left copyTag (map_to_list tags) content in
  match convertFields (map_to_list (Fields metric)) content with
  | inl content => inl (content, metric)
  | inr kv => inr kv
  end.

Definition getLogEventFromMetric (c : CloudWatchLogs) (metric : Metric)
  : option structuredLogEvent * CloudWatchLogs :=
  if HasField metric LogEntryField then
    match Fields metric !! LogEntryField with
    | Some (VString message) => (Some (mkEvent message (MTime metric)), c)
    | _ => (None, logf (WarnValueNotString (Fields metric)) c)
    end
  else
    match buildContent metric with
    | inr (k, v) => (None, logf (ErrorUnexpectedField k v) c)
    | inl (content, metric) =>
        let '(message, c) :=
          match json_Marshal content with
          | Some jsonMap => (jsonMap, c)
          | None => (EmptyString, logf ErrorMarshal c)
          end in
        (Some (mkEvent message (MTime metric)), c)
    end.

(** [cwd == nil] in the source is a location the store does not hold. *)
Definition writeMetricAsStructuredLog (m : Metric) (s : state) : state :=
  let '(tg, err, m) := getTargetFromMetric (plugin s) m in
  let s := match err with
           | Some e => mkState (logf (ErrorFailedToFindTarget e) (plugin s)) (heap s)
           | None => s
           end in
  let '(cwd, s) := getDest tg s in
  match heap s !! cwd with
  | None => mkState (logf (WarnNoDestination (Group tg) (Stream tg)) (plugin s)) (heap s)
  | Some _ =>
      let h := modifyDest cwd switchToEMF (heap s) in
      let h := modifyDest cwd
                 (fun cd => mkDest (setRetryDuration metricRetryTimeout (cwPusher cd))
                              (isEMF cd) (stopped cd)) h in
      let '(e, c) := getLogEventFromMetric (plugin s) m in
      match e with
      | None => mkState c h
      | Some e => mkState c (modifyDest cwd (AddEvent e) h)
      end
  end.

Definition Write (metrics : list Metric) (s : state) : state :=
  fold_left (fun s m => writeMetricAsStructuredLog m s) metrics s.

Definition Close (s : state) : state :=
  mkState (plugin s)
    (fold_left (fun h kv => modifyDest kv.2 Stop h) (map_to_list (cwDests (plugin s))) (heap s)).

(** The plugin as [init] registers it. *)
Definition initPlugin : CloudWatchLogs :=
  mkCloudWatchLogs "" "" "" "" "" "" "" "" "" "" defaultFlushTimeout [] ∅.

End Plugin.

(** ** Sequences of calls *)

(** Everything the package does to a [cwDest] once it exists: its methods, and
    the assignment to [pusher.RetryDuration] of [writeMetricAsStructuredLog]. *)
Inductive destOp :=
| OpPublish (events : list structuredLogEvent)
| OpStop
| OpAddEvent (e : structuredLogEvent)
| OpSwitchToEMF
| OpSetRetryer (r : Retryer)
| OpSetRetryDuration (d : Duration).

Definition applyOp (cd : cwDest) (op : destOp) : cwDest :=
  match op with
  | OpPublish events => (Publish events cd).1
  | OpStop => Stop cd
  | OpAddEvent e => AddEvent e cd
  | OpSwitchToEMF => switchToEMF cd
  | OpSetRetryer r => setRetryer r cd
  | OpSetRetryDuration d =>
      mkDest (setRetryDuration d (cwPusher cd)) (isEMF cd) (stopped cd)
  end.

Definition isStop (op : destOp) : bool :=
  match op with OpStop => true | _ => false end.

Definition runOps (ops : list destOp) (cd : cwDest) : cwDest :=
  fold_left applyOp ops cd.

(** The build handlers of the destination's client ([[]] when the service is
    not the SDK client) and how many of them are the EMF header. *)
Definition buildHandlers (cd : cwDest) : list handler :=
  match Service (cwPusher cd) with
  | SDKClient cl => Build cl
  | OtherService => []
  end.

Definition emfHeaderCount (cd : cwDest) : nat :=
  length (filter (fun h => h = emfHeader) (buildHandlers cd)).

Definition isSDK (cd : cwDest) : bool :=
  match Service (cwPusher cd) with SDKClient _ => true | OtherService => false end.

(** The number of EMF headers a step from [cd] to [cd'] may add: one, when the
    step is the one that leaves plain mode on an SDK client. *)
Definition attached (cd cd' : cwDest) : nat :=
  if negb (isEMF cd) && isEMF cd' && isSDK cd then 1 else 0.

(** A step that keeps the kind of service, never leaves EMF mode, and adds
    the header exactly when it enters EMF mode. *)
Definition modeStep (cd cd' : cwDest) : Prop :=
  isSDK cd' = isSDK cd
  /\ (isEMF cd = true -> isEMF cd' = true)
  /\ emfHeaderCount cd' = emfHeaderCount cd + attached cd cd'.

(** What the host and the log-forwarding side do to the plugin: the exported
    methods, and the methods of a destination handed out by [CreateDest]. *)
Inductive action :=
| ACreateDest (group stream : string)
| AWrite (metrics : list Metric)
| AClose
| ADest (l : loc) (op : destOp).

Definition act (json_Marshal : gmap string value -> option string) (UserAgent : string)
    (s : state) (a : action) : state :=
  match a with
  | ACreateDest group stream => (CreateDest UserAgent group stream s).2
  | AWrite metrics => Write json_Marshal UserAgent metrics s
  | AClose => Close s
  | ADest l op => mkState (plugin s) (modifyDest l (fun cd => applyOp cd op) (heap s))
  end.

Definition run (json_Marshal : gmap string value -> option string) (UserAgent : string)
    (acts : list action) (s : state) : state :=
  fold_left (act json_Marshal UserAgent) acts s.

(** Every pointer of the map is a destination of the store. *)
Definition wf (s : state) : Prop :=
  map_Forall (fun _ l => l < length (heap s)) (cwDests (plugin s)).


(** The fields named by the [attributesInFields] tag. *)
Definition promoted (m : Metric) : list string :=
  match Tags m !! attributesInFields with
  | Some val => GoStrings.Split val ","
  | None => []
  end.

(** ** The queue behind a pusher *)

Module PusherQueue.

(** Modelled from the spec: the queue of [pusher.go] is not among the
    sources. A destination's queue holds the pending events up to a limit;
    [halted] is set once the pipeline is stopped. *)
Record queue := mkQueue {
  pending : list structuredLogEvent;
  limit : nat;
  halted : bool
}.

(** Modelled from the spec: how a call on the pusher ends for the caller;
    it is queued, dropped, left waiting for space, or turned away by a
    stopped pipeline. *)
Inductive outcome :=
| Enqueued
| DroppedNewest
| Suspended
| Refused.

Definition full (q : queue) : bool := Nat.leb (limit q) (length (pending q)).

Definition push (e : structuredLogEvent) (q : queue) : queue :=
  mkQueue (pending q ++ [e]) (limit q) (halted q).

(** Modelled from the spec: the non-blocking enqueue drops the newest event
    when the queue is saturated and returns at once; the blocking enqueue
    returns once the event is queued or the pipeline is stopped, and on a
    saturated queue the caller stays suspended. *)
Definition serve (c : pusherCall) (q : queue) : queue * outcome :=
  match c with
  | CallAddEventNonBlocking e =>
      if full q then (q, DroppedNewest) else (push e q, Enqueued)
  | CallAddEvent e =>
      if halted q then (q, Refused)
      else if full q then (q, Suspended)
      else (push e q, Enqueued)
  | CallStop => (mkQueue (pending q) (limit q) true, Refused)
  end.

End PusherQueue.

(** ** An instance of the marshaller *)

(** [encoding/json] documents that a NaN or infinite float is an
    [UnsupportedValueError]; how the other maps are written is left to
    [render]. *)
Definition marshalable (v : value) : bool :=
  match v with
  | VFloat64 f => float64_finite f
  | VOther _ => false
  | _ => true
  end.

Definition marshalFinite (render : gmap string value -> string)
    (content : gmap string value) : option string :=
  if forallb (fun kv => marshalable kv.2) (map_to_list content)
  then Some (render content) else None.

(** ** Concrete inputs *)

Definition agent : string := "CWAgent".

Definition exampleMarshal : gmap string value -> option string :=
  marshalFinite (fun _ => "{}").

Definition state0 : state := mkState initPlugin [].

Definition metricNaN : Metric :=
  mkMetric "cpu" {[ "log_group_name" := "g" ]} {[ "usage" := VFloat64 S754_nan ]}
    (mkTime 1700000000 0).

Definition metricNoGroup : Metric :=
  mkMetric "cpu" ∅ {[ "value" := VString "hello" ]} (mkTime 1700000000 0).


(** ** Invariants of the plugin state *)

(** The targets the pushers of the store were made for, location by
    location. *)
Definition targetsOf (h : list cwDest) : list Target :=
  (fun cd => PTarget (cwPusher cd)) <$> h.

(** Every target of the map points to a destination whose pusher was made
    for that target. *)
Definition bound (s : state) : Prop :=
  forall tg l, cwDests (plugin s) !! tg = Some l -> targetsOf (heap s) !! l = Some tg.

(** No destination is shared by two targets. *)
Definition separate (s : state) : Prop :=
  forall tg1 tg2 l,
    cwDests (plugin s) !! tg1 = Some l -> cwDests (plugin s) !! tg2 = Some l -> tg1 = tg2.

(** What may happen to a destination over time: its pusher stays bound to the
    same target, a set flag stays set, and the pusher only receives further
    calls. *)
Definition evolves (cd cd' : cwDest) : Prop :=
  PTarget (cwPusher cd') = PTarget (cwPusher cd)
  /\ (stopped cd = true -> stopped cd' = true)
  /\ (isEMF cd = true -> isEMF cd' = true)
  /\ received (cwPusher cd) `prefix_of` received (cwPusher cd').

Definition heapEvolves (h h' : list cwDest) : Prop :=
  forall l cd, h !! l = Some cd -> exists cd', h' !! l = Some cd' /\ evolves cd cd'.

(** The event a call on the pusher carries. *)
Definition eventOf (c : pusherCall) : option structuredLogEvent :=
  match c with
  | CallAddEvent e | CallAddEventNonBlocking e => Some e
  | CallStop => None
  end.

(** The events handed to a pusher, in the order of the calls. *)
Definition eventsOf (calls : list pusherCall) : list structuredLogEvent :=
  omap eventOf calls.

(** The events of a list up to the first message that looks like EMF, and
    from that message on. *)
Fixpoint plainPrefix (events : list structuredLogEvent) : list structuredLogEvent :=
  match events with
  | [] => []
  | e :: rest => if looksLikeEMF (Message e) then [] else e :: plainPrefix rest
  end.

Fixpoint emfSuffix (events : list structuredLogEvent) : list structuredLogEvent :=
  match events with
  | [] => []
  | e :: rest => if looksLikeEMF (Message e) then e :: rest else emfSuffix rest
  end.

(** The retryer of the destination's client, when the service is the SDK
    client and one was set. *)
Definition retryerOf (cd : cwDest) : option Retryer :=
  match Service (cwPusher cd) with
  | SDKClient cl => ClientRetryer cl
  | OtherService => None
  end.

Definition isSetRetryer (op : destOp) : bool :=
  match op with OpSetRetryer _ => true | _ => false end.

(** Further concrete inputs. *)
Definition metricPromoted : Metric :=
  mkMetric "cpu" {[ "attributesInFields" := "ch"; "host" := "h1" ]}
    {[ "usage" := VInt64 3; "ch" := VOther "chan int" ]} (mkTime 1700000000 0).

Definition metricUsage : Metric :=
  mkMetric "cpu" {[ "log_group_name" := "g"; "log_stream_name" := "s"; "host" := "h1" ]}
    {[ "usage" := VInt64 3 ]} (mkTime 1700000000 0).

Definition metricEmptyStream : Metric :=
  mkMetric "cpu" {[ "log_group_name" := "g"; "log_stream_name" := "" ]}
    {[ "value" := VString "line" ]} (mkTime 1700000000 0).

Definition pluginWithStream : CloudWatchLogs :=
  mkCloudWatchLogs "" "" "" "" "" "" "" "" "default-stream" "default-group"
    defaultFlushTimeout [] ∅.

(** A destination set up from the settings of plugin [c]: its service is the
    SDK client with the credentials and the endpoint of [c], its build
    handlers are those [getDest] pushes, followed by the EMF header when the
    destination is in EMF mode, and its flush interval is that of [c]. *)
Definition configuredFrom (UserAgent : string) (c : CloudWatchLogs) (cd : cwDest) : Prop :=
  exists cl,
    Service (cwPusher cd) = SDKClient cl
    /\ Credentials cl = Credentials (newClient UserAgent c)
    /\ Endpoint cl = Endpoint (newClient UserAgent c)
    /\ Build cl = (Build (newClient UserAgent c)
                   ++ if isEMF cd then [emfHeader] else [])%list
    /\ FlushTimeout (cwPusher cd) = ForceFlushInterval c.

Definition allConfigured (UserAgent : string) (s : state) : Prop :=
  Forall (configuredFrom UserAgent (plugin s)) (heap s).

(** Two plugins with the same settings for new destinations. *)
Definition sameSettings (UserAgent : string) (c c' : CloudWatchLogs) : Prop :=
  newClient UserAgent c' = newClient UserAgent c
  /\ ForceFlushInterval c' = ForceFlushInterval c.

(** ** Numeric types *)





(** * Properties *)

(** ** The string tests *)

Section StringFacts.

Lemma append_nil_l s : String.append EmptyString s = s.
Proof. reflexivity. Qed.

Lemma append_cons a r s : String.append (String a r) s = String a (String.append r s).
Proof. reflexivity. Qed.

Lemma HasPrefix_spec s p :
  GoStrings.HasPrefix s p = true <-> exists r, s = String.append p r.
Proof.
  revert s; induction p as [|a p IH]; intros s; destruct s as [|b s]; simpl.
  - split; [intros _; exists EmptyString; reflexivity | reflexivity].
  - split; [intros _; exists (String b s); reflexivity | reflexivity].
  - split; [discriminate | intros [r Hr]; discriminate].
  - rewrite andb_true_iff, Ascii.eqb_eq, IH. split.
    + intros [-> [r ->]]. exists r. reflexivity.
    + intros [r Hr]. inversion Hr; subst. split; [reflexivity | exists r; reflexivity].
Qed.

Lemma HasSuffix_spec s suf :
  GoStrings.HasSuffix s suf = true <-> exists r, s = String.append r suf.
Proof.
  induction s as [|a s IH]; cbn [GoStrings.HasSuffix].
  - rewrite orb_false_r, String.eqb_eq. split.
    + intros <-. exists EmptyString. reflexivity.
    + intros [[|b r] Hr].
      * rewrite append_nil_l in Hr. exact Hr.
      * rewrite append_cons in Hr. discriminate.
  - rewrite orb_true_iff, String.eqb_eq, IH. split.
    + intros [<- | [r ->]].
      * exists EmptyString. reflexivity.
      * exists (String a r). reflexivity.
    + intros [[|b r] Hr].
      * left. rewrite append_nil_l in Hr. exact Hr.
      * right. rewrite append_cons in Hr. inversion Hr; subst. exists r. reflexivity.
Qed.

Lemma Contains_spec s sub :
  GoStrings.Contains s sub = true
  <-> exists a b, s = String.append a (String.append sub b).
Proof.
  induction s as [|c s IH].
  - cbn [GoStrings.Contains]. rewrite orb_false_r, HasPrefix_spec. split.
    + intros [r Hr]. exists EmptyString, r. exact Hr.
    + intros [[|d a] [b Hab]].
      * exists b. exact Hab.
      * rewrite append_cons in Hab. discriminate.
  - cbn [GoStrings.Contains]. rewrite orb_true_iff, HasPrefix_spec, IH. split.
    + intros [[r Hr] | [a [b ->]]].
      * exists EmptyString, r. exact Hr.
      * exists (String c a), b. reflexivity.
    + intros [[|d a] [b Hab]].
      * left. exists b. exact Hab.
      * right. rewrite append_cons in Hab. inversion Hab; subst. exists a, b. reflexivity.
Qed.

End StringFacts.

(** ** Destinations: mode, stop flag, enqueue discipline *)

Section DestFacts.

Implicit Types (cd : cwDest) (e : structuredLogEvent) (op : destOp).

Lemma AddEvent_isEMF e cd : isEMF (AddEvent e cd) = isEMF cd.
Proof. unfold AddEvent. destruct (isEMF cd) eqn:E; simpl; congruence. Qed.

Lemma AddEvent_stopped e cd : stopped (AddEvent e cd) = stopped cd.
Proof. unfold AddEvent. destruct (isEMF cd); reflexivity. Qed.

Lemma AddEvent_handlers e cd : buildHandlers (AddEvent e cd) = buildHandlers cd.
Proof. unfold AddEvent. destruct (isEMF cd); reflexivity. Qed.

Lemma switchToEMF_isEMF cd : isEMF (switchToEMF cd) = true.
Proof. unfold switchToEMF. destruct (isEMF cd) eqn:E; simpl; congruence. Qed.

Lemma switchToEMF_stopped cd : stopped (switchToEMF cd) = stopped cd.
Proof. unfold switchToEMF. destruct (isEMF cd); reflexivity. Qed.

Lemma switchToEMF_when_EMF cd : isEMF cd = true -> switchToEMF cd = cd.
Proof. intros H. unfold switchToEMF. rewrite H. reflexivity. Qed.

Lemma switchToEMF_idempotent cd : switchToEMF (switchToEMF cd) = switchToEMF cd.
Proof. apply switchToEMF_when_EMF, switchToEMF_isEMF. Qed.

Lemma switchToEMF_handlers cd :
  buildHandlers (switchToEMF cd) =
  if isEMF cd then buildHandlers cd
  else match Service (cwPusher cd) with
       | SDKClient cl => (Build cl ++ [emfHeader])%list
       | OtherService => []
       end.
Proof.
  unfold switchToEMF, buildHandlers.
  destruct (isEMF cd); simpl; [reflexivity|].
  destruct (Service (cwPusher cd)) eqn:E; simpl; rewrite ?E; reflexivity.
Qed.

Lemma publishOne_isEMF cd e :
  isEMF (publishOne cd e) = isEMF cd || looksLikeEMF (Message e).
Proof.
  unfold publishOne. rewrite AddEvent_isEMF.
  destruct (isEMF cd) eqn:E; simpl; [exact E|].
  destruct (looksLikeEMF (Message e)); [apply switchToEMF_isEMF | exact E].
Qed.

Lemma publishOne_stopped cd e : stopped (publishOne cd e) = stopped cd.
Proof.
  unfold publishOne. rewrite AddEvent_stopped.
  destruct (isEMF cd); simpl; [reflexivity|].
  destruct (looksLikeEMF (Message e)); [apply switchToEMF_stopped | reflexivity].
Qed.

Lemma Publish_stopped events cd : stopped (Publish events cd).1 = stopped cd.
Proof.
  unfold Publish; simpl. revert cd.
  induction events as [|e events IH]; intros cd; simpl; [reflexivity|].
  rewrite IH. apply publishOne_stopped.
Qed.

Lemma Publish_keeps_EMF events cd :
  isEMF cd = true -> isEMF (Publish events cd).1 = true.
Proof.
  unfold Publish; simpl. revert cd.
  induction events as [|e events IH]; intros cd H; simpl; [exact H|].
  apply IH. rewrite publishOne_isEMF, H. reflexivity.
Qed.

Lemma setRetryer_isEMF r cd : isEMF (setRetryer r cd) = isEMF cd.
Proof. unfold setRetryer. destruct (Service (cwPusher cd)); reflexivity. Qed.

Lemma setRetryer_stopped r cd : stopped (setRetryer r cd) = stopped cd.
Proof. unfold setRetryer. destruct (Service (cwPusher cd)); reflexivity. Qed.

Lemma setRetryer_handlers r cd : buildHandlers (setRetryer r cd) = buildHandlers cd.
Proof.
  unfold setRetryer, buildHandlers.
  destruct (Service (cwPusher cd)) eqn:E; simpl; [reflexivity | rewrite E; reflexivity].
Qed.

(** No operation clears the mode flag. *)
Lemma applyOp_keeps_EMF op cd : isEMF cd = true -> isEMF (applyOp cd op) = true.
Proof.
  intros H. destruct op; cbn [applyOp].
  - apply Publish_keeps_EMF, H.
  - exact H.
  - rewrite AddEvent_isEMF; exact H.
  - apply switchToEMF_isEMF.
  - rewrite setRetryer_isEMF; exact H.
  - exact H.
Qed.

Lemma runOps_keeps_EMF ops cd : isEMF cd = true -> isEMF (runOps ops cd) = true.
Proof.
  unfold runOps. revert cd.
  induction ops as [|op ops IH]; intros cd H; simpl; [exact H|].
  apply IH, applyOp_keeps_EMF, H.
Qed.

(** No operation clears the stop flag, and only [Stop] sets it. *)
Lemma applyOp_stopped op cd :
  stopped (applyOp cd op) = stopped cd || isStop op.
Proof.
  destruct op; cbn [applyOp isStop].
  - rewrite Publish_stopped, orb_false_r; reflexivity.
  - rewrite orb_true_r; reflexivity.
  - rewrite AddEvent_stopped, orb_false_r; reflexivity.
  - rewrite switchToEMF_stopped, orb_false_r; reflexivity.
  - rewrite setRetryer_stopped, orb_false_r; reflexivity.
  - rewrite orb_false_r; reflexivity.
Qed.

End DestFacts.

Section ModeFacts.

Implicit Types (cd : cwDest) (e : structuredLogEvent) (op : destOp).

Lemma modeStep_refl cd : modeStep cd cd.
Proof.
  unfold modeStep, attached. repeat split; [tauto|].
  destruct (isEMF cd); simpl; lia.
Qed.

Lemma modeStep_trans cd1 cd2 cd3 :
  modeStep cd1 cd2 -> modeStep cd2 cd3 -> modeStep cd1 cd3.
Proof.
  unfold modeStep, attached. intros (S1 & M1 & C1) (S2 & M2 & C2).
  split; [congruence|]. split; [tauto|].
  rewrite C2, C1, S1.
  destruct (isEMF cd1), (isEMF cd2) eqn:E2, (isEMF cd3) eqn:E3, (isSDK cd1);
    simpl; try lia;
    try (specialize (M1 eq_refl); discriminate);
    try (specialize (M2 eq_refl); discriminate).
Qed.

(** A step that touches neither the mode nor the handlers. *)
Lemma modeStep_frame cd cd' :
  isEMF cd' = isEMF cd -> buildHandlers cd' = buildHandlers cd ->
  isSDK cd' = isSDK cd -> modeStep cd cd'.
Proof.
  intros HE HB HS. unfold modeStep, attached, emfHeaderCount.
  rewrite HE, HB. repeat split; [exact HS | tauto |].
  destruct (isEMF cd); simpl; lia.
Qed.

Lemma AddEvent_isSDK e cd : isSDK (AddEvent e cd) = isSDK cd.
Proof. unfold AddEvent. destruct (isEMF cd); reflexivity. Qed.

Lemma switchToEMF_isSDK cd : isSDK (switchToEMF cd) = isSDK cd.
Proof.
  unfold switchToEMF, isSDK. destruct (isEMF cd); simpl; [reflexivity|].
  destruct (Service (cwPusher cd)) eqn:E; simpl; rewrite ?E; reflexivity.
Qed.

Lemma setRetryer_isSDK r cd : isSDK (setRetryer r cd) = isSDK cd.
Proof.
  unfold setRetryer, isSDK.
  destruct (Service (cwPusher cd)) eqn:E; simpl; rewrite ?E; reflexivity.
Qed.

Lemma modeStep_AddEvent e cd : modeStep cd (AddEvent e cd).
Proof.
  apply modeStep_frame;
    [apply AddEvent_isEMF | apply AddEvent_handlers | apply AddEvent_isSDK].
Qed.

Lemma modeStep_switchToEMF cd : modeStep cd (switchToEMF cd).
Proof.
  destruct (isEMF cd) eqn:E.
  - rewrite (switchToEMF_when_EMF cd E). apply modeStep_refl.
  - unfold modeStep, attached, emfHeaderCount.
    rewrite switchToEMF_isEMF, switchToEMF_handlers, E.
    split; [apply switchToEMF_isSDK|]. split; [reflexivity|].
    unfold buildHandlers, isSDK. destruct (Service (cwPusher cd)); simpl; [|reflexivity].
    rewrite filter_app, length_app. reflexivity.
Qed.

Lemma modeStep_publishOne cd e : modeStep cd (publishOne cd e).
Proof.
  unfold publishOne.
  eapply modeStep_trans; [|apply modeStep_AddEvent].
  destruct (negb (isEMF cd)); [|apply modeStep_refl].
  destruct (looksLikeEMF (Message e)); [apply modeStep_switchToEMF | apply modeStep_refl].
Qed.

Lemma modeStep_Publish events cd : modeStep cd (Publish events cd).1.
Proof.
  unfold Publish; simpl. revert cd.
  induction events as [|e events IH]; intros cd; simpl; [apply modeStep_refl|].
  eapply modeStep_trans; [apply modeStep_publishOne | apply IH].
Qed.

Lemma modeStep_applyOp op cd : modeStep cd (applyOp cd op).
Proof.
  destruct op; cbn [applyOp].
  - apply modeStep_Publish.
  - apply modeStep_frame; reflexivity.
  - apply modeStep_AddEvent.
  - apply modeStep_switchToEMF.
  - apply modeStep_frame;
      [apply setRetryer_isEMF | apply setRetryer_handlers | apply setRetryer_isSDK].
  - apply modeStep_frame; reflexivity.
Qed.

Lemma modeStep_runOps ops cd : modeStep cd (runOps ops cd).
Proof.
  unfold runOps. revert cd.
  induction ops as [|op ops IH]; intros cd; simpl; [apply modeStep_refl|].
  eapply modeStep_trans; [apply modeStep_applyOp | apply IH].
Qed.

Lemma runOps_stopped ops cd :
  stopped (runOps ops cd) = stopped cd || existsb isStop ops.
Proof.
  unfold runOps. revert cd.
  induction ops as [|op ops IH]; intros cd; simpl.
  - rewrite orb_false_r; reflexivity.
  - rewrite IH, applyOp_stopped, orb_assoc; reflexivity.
Qed.

End ModeFacts.

(** C3. The mode of a destination is one-way. A new destination is in plain
    mode; [switchToEMF] sets the flag and is idempotent; no sequence of
    operations on a destination clears the flag; over any sequence of
    operations the EMF header is appended to the build handlers at most once;
    and on a destination made by [getDest] the header is among the build
    handlers, once, exactly when the destination is in EMF mode. *)
Theorem mode_is_one_way (UserAgent : string) (c : CloudWatchLogs) (tg : Target) :
  isEMF (newDest UserAgent c tg) = false
  /\ (forall cd, isEMF (switchToEMF cd) = true
                 /\ switchToEMF (switchToEMF cd) = switchToEMF cd)
  /\ (forall cd ops, isEMF cd = true -> isEMF (runOps ops cd) = true)
  /\ (forall cd ops, emfHeaderCount cd <= emfHeaderCount (runOps ops cd)
                     /\ emfHeaderCount (runOps ops cd) <= emfHeaderCount cd + 1)
  /\ (forall ops, let cd := runOps ops (newDest UserAgent c tg) in
                  emfHeaderCount cd = (if isEMF cd then 1 else 0)
                  /\ (isEMF cd = true -> emfHeader ∈ buildHandlers cd)).
Proof.
  split; [reflexivity|].
  split; [intros cd; split; [apply switchToEMF_isEMF | apply switchToEMF_idempotent]|].
  split; [intros cd ops; apply runOps_keeps_EMF|].
  split.
  - intros cd ops. destruct (modeStep_runOps ops cd) as (_ & _ & C).
    rewrite C. unfold attached.
    destruct (negb (isEMF cd) && isEMF (runOps ops cd) && isSDK cd); lia.
  - intros ops cd.
    destruct (modeStep_runOps ops (newDest UserAgent c tg)) as (_ & _ & C).
    fold cd in C.
    assert (Hc : emfHeaderCount cd = if isEMF cd then 1 else 0).
    { rewrite C. unfold attached. simpl. destruct (isEMF cd); reflexivity. }
    split; [exact Hc|].
    intros HE. rewrite HE in Hc. unfold emfHeaderCount in Hc.
    destruct (filter (fun h => h = emfHeader) (buildHandlers cd)) as [|h l] eqn:F;
      [discriminate|].
    assert (Hin : h ∈ filter (fun h => h = emfHeader) (buildHandlers cd))
      by (rewrite F; left).
    apply list_elem_of_filter in Hin as [-> Hin]. exact Hin.
Qed.

(** C4. In plain mode the generic log path switches the destination to EMF
    mode exactly for a message that starts with an opening brace, ends with a
    closing brace and contains the quoted key [CloudWatchMetrics]; any other
    message leaves the mode as it was. *)
Theorem Publish_detects_EMF (cd : cwDest) (e : structuredLogEvent) :
  isEMF cd = false ->
  (Publish [e] cd).1 = publishOne cd e
  /\ (forall events, Publish (e :: events) cd = Publish events (publishOne cd e))
  /\ (isEMF (publishOne cd e) = true
      <-> (exists r, msg e = String.append "{" r)
          /\ (exists r, msg e = String.append r "}")
          /\ (exists a b, msg e = String.append a (String.append emfMarker b)))
  /\ (isEMF (publishOne cd e) = false <-> looksLikeEMF (msg e) = false).
Proof.
  intros HE. split; [reflexivity|]. split; [reflexivity|].
  rewrite publishOne_isEMF, HE. simpl. unfold Message. split; [|tauto].
  unfold looksLikeEMF.
  rewrite !andb_true_iff, HasPrefix_spec, HasSuffix_spec, Contains_spec. tauto.
Qed.

(** C7. [AddEvent] hands the event to the pusher by the non-blocking enqueue
    exactly when the destination is in EMF mode and by the blocking enqueue
    exactly when it is in plain mode; on a saturated queue the first drops the
    event and returns, the second leaves the caller suspended, and the
    non-blocking enqueue never suspends. *)
Theorem AddEvent_discipline (e : structuredLogEvent) (cd : cwDest) :
  let call := if isEMF cd then CallAddEventNonBlocking e else CallAddEvent e in
  received (cwPusher (AddEvent e cd)) = (received (cwPusher cd) ++ [call])%list
  /\ (call = CallAddEventNonBlocking e <-> isEMF cd = true)
  /\ (call = CallAddEvent e <-> isEMF cd = false)
  /\ isEMF (AddEvent e cd) = isEMF cd
  /\ (forall q, PusherQueue.full q = true -> PusherQueue.halted q = false ->
                PusherQueue.serve call q
                = (q, if isEMF cd then PusherQueue.DroppedNewest else PusherQueue.Suspended))
  /\ (forall q, (PusherQueue.serve (CallAddEventNonBlocking e) q).2 <> PusherQueue.Suspended).
Proof.
  intros call. subst call. split.
  { unfold AddEvent. destruct (isEMF cd); reflexivity. }
  split; [destruct (isEMF cd); split; congruence|].
  split; [destruct (isEMF cd); split; congruence|].
  split; [apply AddEvent_isEMF|].
  split.
  - intros q Hf Hh. destruct (isEMF cd); simpl; rewrite ?Hh, Hf; reflexivity.
  - intros q. simpl. destruct (PusherQueue.full q); simpl; discriminate.
Qed.

(** C8. [Stop] sets the stop flag; from then on, whatever else is done to the
    destination, [Publish] returns the output-stopped error; and on a
    destination made by [getDest] on which [Stop] was not called, [Publish]
    returns no error. *)
Theorem Publish_after_Stop (UserAgent : string) (c : CloudWatchLogs) (tg : Target) :
  (forall cd, stopped (Stop cd) = true)
  /\ (forall cd ops events,
        (Publish events (runOps ops (Stop cd))).2 = Some ErrOutputStopped)
  /\ (forall ops events, existsb isStop ops = false ->
        (Publish events (runOps ops (newDest UserAgent c tg))).2 = None).
Proof.
  split; [reflexivity|]. split.
  - intros cd ops events.
    pose proof (Publish_stopped events (runOps ops (Stop cd))) as H.
    rewrite runOps_stopped in H. simpl in H.
    unfold Publish in *. simpl in *. rewrite H. reflexivity.
  - intros ops events Hn.
    pose proof (Publish_stopped events (runOps ops (newDest UserAgent c tg))) as H.
    rewrite runOps_stopped, Hn in H. simpl in H.
    unfold Publish in *. simpl in *. rewrite H. reflexivity.
Qed.

(** ** The destination map *)

Section RouterFacts.

Variable json_Marshal : gmap string value -> option string.
Variable UserAgent : string.

Implicit Types (s : state) (c : CloudWatchLogs) (tg : Target) (m : Metric).

Lemma modifyDest_length l f (h : list cwDest) : length (modifyDest l f h) = length h.
Proof. unfold modifyDest. destruct (h !! l); [apply length_insert | reflexivity]. Qed.

Lemma modifyDest_lookup l f (h : list cwDest) : modifyDest l f h !! l = f <$> h !! l.
Proof.
  unfold modifyDest. destruct (h !! l) eqn:E; simpl; [|exact E].
  apply list_lookup_insert_eq. eapply lookup_lt_Some, E.
Qed.

Lemma modifyDest_lookup_ne l l' f (h : list cwDest) :
  l <> l' -> modifyDest l f h !! l' = h !! l'.
Proof.
  intros Hne. unfold modifyDest. destruct (h !! l); [|reflexivity].
  apply list_lookup_insert_ne, Hne.
Qed.

Lemma modifyDest_Some l f (h : list cwDest) cd :
  h !! l = Some cd -> modifyDest l f h = <[l := f cd]> h.
Proof. intros H. unfold modifyDest. rewrite H. reflexivity. Qed.

Lemma modifyDest_insert l f (h : list cwDest) x :
  l < length h -> modifyDest l f (<[l := x]> h) = <[l := f x]> h.
Proof.
  intros H. unfold modifyDest. rewrite list_lookup_insert_eq by exact H.
  apply list_insert_insert_eq.
Qed.

Lemma getDest_known tg s l :
  cwDests (plugin s) !! tg = Some l -> getDest UserAgent tg s = (l, s).
Proof. intros H. unfold getDest. rewrite H. reflexivity. Qed.

Lemma getDest_lookup tg s :
  cwDests (plugin (getDest UserAgent tg s).2) !! tg = Some (getDest UserAgent tg s).1.
Proof.
  unfold getDest. destruct (cwDests (plugin s) !! tg) eqn:E; simpl; [exact E|].
  apply lookup_insert_eq.
Qed.

Lemma getDest_mono tg s :
  cwDests (plugin s) ⊆ cwDests (plugin (getDest UserAgent tg s).2).
Proof.
  unfold getDest. destruct (cwDests (plugin s) !! tg) eqn:E; simpl; [reflexivity|].
  apply insert_subseteq, E.
Qed.

Lemma getDest_wf tg s : wf s -> wf (getDest UserAgent tg s).2.
Proof.
  unfold wf, getDest. intros H.
  destruct (cwDests (plugin s) !! tg) eqn:E; simpl; [exact H|].
  apply map_Forall_insert_2.
  - rewrite length_app; simpl; lia.
  - eapply map_Forall_impl; [exact H|]. simpl. intros _ l Hl.
    rewrite length_app; simpl; lia.
Qed.

Lemma getDest_valid tg s :
  wf s -> is_Some (heap (getDest UserAgent tg s).2 !! (getDest UserAgent tg s).1).
Proof.
  intros H. apply lookup_lt_is_Some.
  exact (getDest_wf tg s H _ _ (getDest_lookup tg s)).
Qed.

Lemma getDest_config tg s :
  LogGroupName (plugin (getDest UserAgent tg s).2) = LogGroupName (plugin s)
  /\ LogStreamName (plugin (getDest UserAgent tg s).2) = LogStreamName (plugin s).
Proof. unfold getDest. destruct (cwDests (plugin s) !! tg); split; reflexivity. Qed.

Lemma getLogEventFromMetric_plugin c m :
  let c' := (getLogEventFromMetric json_Marshal c m).2 in
  cwDests c' = cwDests c /\ LogGroupName c' = LogGroupName c
  /\ LogStreamName c' = LogStreamName c.
Proof.
  unfold getLogEventFromMetric.
  destruct (HasField m LogEntryField).
  - destruct (Fields m !! LogEntryField) as [[]|]; simpl; auto.
  - destruct (buildContent m) as [[content m']|[k v]]; simpl; auto.
    destruct (json_Marshal content); simpl; auto.
Qed.

Lemma getLogEventFromMetric_log c m x :
  x ∈ Log c -> x ∈ Log (getLogEventFromMetric json_Marshal c m).2.
Proof.
  intros H.
  assert (H1 : forall y, x ∈ Log (logf y c))
    by (intros y; cbn [Log logf]; apply elem_of_app; left; exact H).
  unfold getLogEventFromMetric.
  destruct (HasField m LogEntryField).
  - destruct (Fields m !! LogEntryField) as [[]|]; cbn [snd]; auto.
  - destruct (buildContent m) as [[content m']|[k v]]; cbn [snd]; auto.
    destruct (json_Marshal content); cbn [snd]; auto.
Qed.

(** What [writeMetricAsStructuredLog] does, in terms of the target the record
    resolves to and the event built from it. *)
Lemma writeMetricAsStructuredLog_unfold m s :
  wf s ->
  let r := getTargetFromMetric (plugin s) m in
  let s0 := match r.1.2 with
            | Some e => mkState (logf (ErrorFailedToFindTarget e) (plugin s)) (heap s)
            | None => s
            end in
  let l := (getDest UserAgent r.1.1 s0).1 in
  let s1 := (getDest UserAgent r.1.1 s0).2 in
  let ev := getLogEventFromMetric json_Marshal (plugin s1) r.2 in
  exists cd,
    heap s1 !! l = Some cd
    /\ writeMetricAsStructuredLog json_Marshal UserAgent m s =
       mkState ev.2
         (<[l := let cd' := mkDest (setRetryDuration metricRetryTimeout
                                      (cwPusher (switchToEMF cd)))
                              (isEMF (switchToEMF cd)) (stopped (switchToEMF cd)) in
                 match ev.1 with Some e => AddEvent e cd' | None => cd' end]>
            (heap s1)).
Proof.
  intros Hwf. cbv zeta.
  unfold writeMetricAsStructuredLog.
  destruct (getTargetFromMetric (plugin s) m) as [[tg err] m1]. cbn [fst snd].
  set (s0 := match err with Some e => _ | None => s end).
  assert (Hwf0 : wf s0) by (subst s0; destruct err; exact Hwf).
  destruct (getDest_valid tg s0 Hwf0) as [cd Hcd].
  destruct (getDest UserAgent tg s0) as [l s1]. cbn [fst snd] in *.
  exists cd. split; [exact Hcd|]. rewrite Hcd.
  assert (Hl : l < length (heap s1)) by (eapply lookup_lt_Some, Hcd).
  rewrite (modifyDest_Some _ switchToEMF _ _ Hcd).
  rewrite modifyDest_insert by exact Hl.
  destruct (getLogEventFromMetric json_Marshal (plugin s1) m1) as [[e|] c'];
    cbn [fst snd]; rewrite ?modifyDest_insert by exact Hl; reflexivity.
Qed.

Lemma writeMetricAsStructuredLog_mono m s :
  cwDests (plugin s) ⊆ cwDests (plugin (writeMetricAsStructuredLog json_Marshal UserAgent m s)).
Proof.
  unfold writeMetricAsStructuredLog.
  destruct (getTargetFromMetric (plugin s) m) as [[tg err] m1].
  set (s0 := match err with Some e => _ | None => s end).
  assert (H0 : cwDests (plugin s0) = cwDests (plugin s))
    by (subst s0; destruct err; reflexivity).
  pose proof (getDest_mono tg s0) as Hm. rewrite H0 in Hm.
  destruct (getDest UserAgent tg s0) as [l s1]. simpl in Hm.
  destruct (heap s1 !! l); [|exact Hm].
  pose proof (getLogEventFromMetric_plugin (plugin s1) m1) as (Hc & _).
  destruct (getLogEventFromMetric json_Marshal (plugin s1) m1) as [[e|] c'];
    simpl in *; rewrite Hc; exact Hm.
Qed.

Lemma writeMetricAsStructuredLog_config m s :
  let s' := writeMetricAsStructuredLog json_Marshal UserAgent m s in
  LogGroupName (plugin s') = LogGroupName (plugin s)
  /\ LogStreamName (plugin s') = LogStreamName (plugin s).
Proof.
  unfold writeMetricAsStructuredLog.
  destruct (getTargetFromMetric (plugin s) m) as [[tg err] m1].
  set (s0 := match err with Some e => _ | None => s end).
  assert (H0 : LogGroupName (plugin s0) = LogGroupName (plugin s)
               /\ LogStreamName (plugin s0) = LogStreamName (plugin s))
    by (subst s0; destruct err; split; reflexivity).
  pose proof (getDest_config tg s0) as Hm.
  destruct (getDest UserAgent tg s0) as [l s1]. simpl in Hm.
  destruct (heap s1 !! l); simpl; [|intuition congruence].
  pose proof (getLogEventFromMetric_plugin (plugin s1) m1) as (_ & Hg & Hs).
  destruct (getLogEventFromMetric json_Marshal (plugin s1) m1) as [[e|] c'];
    simpl in *; intuition congruence.
Qed.

Lemma act_mono a s :
  cwDests (plugin s) ⊆ cwDests (plugin (act json_Marshal UserAgent s a))
  /\ LogGroupName (plugin (act json_Marshal UserAgent s a)) = LogGroupName (plugin s)
  /\ LogStreamName (plugin (act json_Marshal UserAgent s a)) = LogStreamName (plugin s).
Proof.
  destruct a as [group stream|metrics| |l op]; cbn [act].
  - unfold CreateDest. split; [apply getDest_mono | apply getDest_config].
  - unfold Write. revert s. induction metrics as [|m ms IH]; intros s; simpl.
    + auto.
    + destruct (IH (writeMetricAsStructuredLog json_Marshal UserAgent m s)) as (I1 & I2 & I3).
      pose proof (writeMetricAsStructuredLog_config m s) as (C1 & C2).
      split; [etrans; [apply writeMetricAsStructuredLog_mono | exact I1]|].
      split; congruence.
  - auto.
  - auto.
Qed.

Lemma run_mono acts s :
  cwDests (plugin s) ⊆ cwDests (plugin (run json_Marshal UserAgent acts s))
  /\ LogGroupName (plugin (run json_Marshal UserAgent acts s)) = LogGroupName (plugin s)
  /\ LogStreamName (plugin (run json_Marshal UserAgent acts s)) = LogStreamName (plugin s).
Proof.
  unfold run. revert s. induction acts as [|a acts IH]; intros s; simpl.
  - auto.
  - destruct (IH (act json_Marshal UserAgent s a)) as (I1 & I2 & I3).
    destruct (act_mono a s) as (A1 & A2 & A3).
    split; [etrans; [exact A1 | exact I1]|]. split; congruence.
Qed.

End RouterFacts.

Section RouterTheorems.

Variable json_Marshal : gmap string value -> option string.
Variable UserAgent : string.

Implicit Types (s : state) (c : CloudWatchLogs) (tg : Target) (m : Metric).

(** The map and the size of the store after a record, in terms of the
    resolution of its target. *)
Lemma writeMetricAsStructuredLog_router m s :
  let r := getTargetFromMetric (plugin s) m in
  let s0 := match r.1.2 with
            | Some e => mkState (logf (ErrorFailedToFindTarget e) (plugin s)) (heap s)
            | None => s
            end in
  let s' := writeMetricAsStructuredLog json_Marshal UserAgent m s in
  cwDests (plugin s') = cwDests (plugin (getDest UserAgent r.1.1 s0).2)
  /\ length (heap s') = length (heap (getDest UserAgent r.1.1 s0).2).
Proof.
  cbv zeta. unfold writeMetricAsStructuredLog.
  destruct (getTargetFromMetric (plugin s) m) as [[tg err] m1]. cbn [fst snd].
  set (s0 := match err with Some e => _ | None => s end).
  destruct (getDest UserAgent tg s0) as [l s1]. cbn [fst snd].
  destruct (heap s1 !! l); [|split; reflexivity].
  pose proof (getLogEventFromMetric_plugin json_Marshal (plugin s1) m1) as (Hc & _).
  destruct (getLogEventFromMetric json_Marshal (plugin s1) m1) as [[e|] c'];
    simpl in *; rewrite ?modifyDest_length; split; auto.
Qed.

(** C2. [getDest] is idempotent. Its first call on a target the map does not
    hold constructs one destination, at a location no other target has, and
    registers it; every later call for the same target, whatever was done to
    the plugin in between, returns that location and changes nothing; and a
    record that resolves to the target is routed without a new entry in the
    map or in the store. *)
Theorem getDest_idempotent tg s :
  wf s ->
  let l := (getDest UserAgent tg s).1 in
  let s1 := (getDest UserAgent tg s).2 in
  (cwDests (plugin s) !! tg = None ->
     l = length (heap s)
     /\ heap s1 = (heap s ++ [newDest UserAgent (plugin s) tg])%list
     /\ cwDests (plugin s1) = <[tg := l]> (cwDests (plugin s))
     /\ (forall tg' l', cwDests (plugin s) !! tg' = Some l' -> l' <> l))
  /\ (forall acts,
        let s2 := run json_Marshal UserAgent acts s1 in
        getDest UserAgent tg s2 = (l, s2))
  /\ (forall acts m,
        let s2 := run json_Marshal UserAgent acts s1 in
        let s3 := writeMetricAsStructuredLog json_Marshal UserAgent m s2 in
        (getTargetFromMetric (plugin s2) m).1 = (tg, None) ->
        cwDests (plugin s3) = cwDests (plugin s2)
        /\ length (heap s3) = length (heap s2)
        /\ cwDests (plugin s3) !! tg = Some l).
Proof.
  intros Hwf l s1.
  assert (Hl : forall acts,
             cwDests (plugin (run json_Marshal UserAgent acts s1)) !! tg = Some l).
  { intros acts. eapply lookup_weaken; [apply getDest_lookup|].
    apply run_mono. }
  split; [|split].
  - intros Hnone. subst l s1. unfold getDest. rewrite Hnone. simpl.
    repeat split. intros tg' l' H' ->.
    specialize (Hwf _ _ H'). simpl in Hwf. lia.
  - intros acts s2. apply getDest_known, Hl.
  - intros acts m s2 s3 Ht.
    pose proof (writeMetricAsStructuredLog_router m s2) as Hr.
    cbv zeta in Hr. rewrite Ht in Hr. cbn [fst snd] in Hr.
    rewrite (getDest_known UserAgent tg s2 l (Hl acts)) in Hr.
    destruct Hr as [Hc Hh]. fold s3 in Hc, Hh. simpl in Hc, Hh.
    split; [exact Hc|]. split; [exact Hh|]. rewrite Hc. apply Hl.
Qed.

(** C10. [CreateDest] replaces an empty group by the configured log group
    name and an empty stream by the configured log stream name before it
    resolves the target, so that [CreateDest "" ""] and [CreateDest] on the
    configured names give the same destination, in either order and whatever
    is done to the plugin in between. *)
Theorem CreateDest_defaults s :
  let g := LogGroupName (plugin s) in
  let st := LogStreamName (plugin s) in
  (forall group stream,
     CreateDest UserAgent group stream s
     = getDest UserAgent (mkTarget (if decide (group = "") then g else group)
                           (if decide (stream = "") then st else stream)) s)
  /\ CreateDest UserAgent "" "" s = CreateDest UserAgent g st s
  /\ (forall acts,
        let s1 := (CreateDest UserAgent "" "" s).2 in
        let s2 := run json_Marshal UserAgent acts s1 in
        CreateDest UserAgent g st s2 = ((CreateDest UserAgent "" "" s).1, s2))
  /\ (forall acts,
        let s1 := (CreateDest UserAgent g st s).2 in
        let s2 := run json_Marshal UserAgent acts s1 in
        CreateDest UserAgent "" "" s2 = ((CreateDest UserAgent g st s).1, s2)).
Proof.
  intros g st.
  assert (Hgen : forall group stream s',
             CreateDest UserAgent group stream s'
             = getDest UserAgent
                 (mkTarget (if decide (group = "") then LogGroupName (plugin s') else group)
                    (if decide (stream = "") then LogStreamName (plugin s') else stream)) s').
  { intros group stream s'. unfold CreateDest.
    destruct (String.eqb_spec group ""), (String.eqb_spec stream "");
      repeat case_decide; try congruence; reflexivity. }
  assert (Hcfg : CreateDest UserAgent g st s = getDest UserAgent (mkTarget g st) s).
  { rewrite Hgen. fold g st. repeat case_decide; congruence. }
  assert (Hemp : CreateDest UserAgent "" "" s = getDest UserAgent (mkTarget g st) s).
  { rewrite Hgen. reflexivity. }
  assert (Hlater : forall acts,
             let s2 := run json_Marshal UserAgent acts (getDest UserAgent (mkTarget g st) s).2 in
             getDest UserAgent (mkTarget g st) s2
             = ((getDest UserAgent (mkTarget g st) s).1, s2)
             /\ LogGroupName (plugin s2) = g /\ LogStreamName (plugin s2) = st).
  { intros acts s2.
    destruct (run_mono json_Marshal UserAgent acts (getDest UserAgent (mkTarget g st) s).2)
      as (Hm & Hg & Hs).
    destruct (getDest_config UserAgent (mkTarget g st) s) as (Hg' & Hs').
    split; [|split; subst s2 g st; congruence].
    apply getDest_known. eapply lookup_weaken; [apply getDest_lookup | exact Hm]. }
  split; [intros group stream; apply Hgen|].
  split; [congruence|].
  split.
  - intros acts s1 s2. subst s1 s2. rewrite Hemp.
    destruct (Hlater acts) as (H1 & H2 & H3).
    rewrite Hgen, H2, H3. repeat case_decide; rewrite <- ?H1; congruence.
  - intros acts s1 s2. subst s1 s2. rewrite Hcfg.
    destruct (Hlater acts) as (H1 & H2 & H3).
    rewrite Hgen, H2, H3. simpl. exact H1.
Qed.

Lemma AddEvent_RetryDuration e cd :
  RetryDuration (cwPusher (AddEvent e cd)) = RetryDuration (cwPusher cd).
Proof. unfold AddEvent. destruct (isEMF cd); reflexivity. Qed.

(** C9. Every record written through the metric path leaves the destination
    of its target with the metric retry timeout as its retry duration; that
    timeout is the constant two minutes, whatever the configuration, and is
    shorter than the fourteen days and ten minutes a destination is created
    with. *)
Theorem metric_retry_timeout m s :
  wf s ->
  let tg := (getTargetFromMetric (plugin s) m).1.1 in
  let s' := writeMetricAsStructuredLog json_Marshal UserAgent m s in
  (exists l cd,
      cwDests (plugin s') !! tg = Some l
      /\ heap s' !! l = Some cd
      /\ RetryDuration (cwPusher cd) = metricRetryTimeout)
  /\ metricRetryTimeout = (120 * 1000000000)%Z
  /\ maxRetryTimeout = ((14 * 86400 + 600) * 1000000000)%Z
  /\ (metricRetryTimeout < maxRetryTimeout)%Z
  /\ (forall c tg', RetryDuration (cwPusher (newDest UserAgent c tg')) = maxRetryTimeout).
Proof.
  intros Hwf tg s'.
  split; [|repeat split; reflexivity].
  destruct (writeMetricAsStructuredLog_unfold json_Marshal UserAgent m s Hwf)
    as (cd & Hcd & Hw).
  cbv zeta in Hcd, Hw. fold tg in Hcd, Hw. fold s' in Hw.
  set (s0 := match (getTargetFromMetric (plugin s) m).1.2 with
             | Some e => _ | None => s end) in *.
  set (l := (getDest UserAgent tg s0).1) in *.
  set (s1 := (getDest UserAgent tg s0).2) in *.
  set (ev := getLogEventFromMetric json_Marshal (plugin s1) (getTargetFromMetric (plugin s) m).2) in *.
  eexists l, _. rewrite Hw. cbn [plugin heap].
  split; [|split].
  - destruct (getLogEventFromMetric_plugin json_Marshal (plugin s1)
                (getTargetFromMetric (plugin s) m).2) as (Hc & _).
    fold ev in Hc. rewrite Hc. apply getDest_lookup.
  - apply list_lookup_insert_eq. eapply lookup_lt_Some, Hcd.
  - destruct (ev.1); [rewrite AddEvent_RetryDuration|]; reflexivity.
Qed.

End RouterTheorems.

(** ** Classification of a record *)

Section ClassifierFacts.

Implicit Types (m : Metric) (content : gmap string value).

Lemma convertFields_frame kvs content content' k :
  convertFields kvs content = inl content' -> k ∉ kvs.*1 ->
  content' !! k = content !! k.
Proof.
  revert content. induction kvs as [|[k0 v0] kvs IH]; intros content H Hk; simpl in *.
  - congruence.
  - destruct (convertField v0) as [x|]; [|discriminate].
    apply not_elem_of_cons in Hk as [Hne Hk].
    rewrite (IH _ H Hk). apply lookup_insert_ne. congruence.
Qed.

Lemma convertFields_inl kvs content content' k v :
  convertFields kvs content = inl content' -> NoDup kvs.*1 -> (k, v) ∈ kvs ->
  content' !! k = convertField v /\ is_Some (convertField v).
Proof.
  revert content. induction kvs as [|[k0 v0] kvs IH]; intros content H Hnd Hin; simpl in *.
  - apply elem_of_nil in Hin. contradiction.
  - destruct (convertField v0) as [x|] eqn:Ex; [|discriminate].
    apply NoDup_cons in Hnd as [Hk0 Hnd].
    apply elem_of_cons in Hin as [Heq | Hin].
    + inversion Heq; subst. rewrite Ex. split; [|eauto].
      rewrite (convertFields_frame _ _ _ _ H Hk0). apply lookup_insert_eq.
    + eapply IH; eauto.
Qed.

Lemma convertFields_inr kvs content k v :
  convertFields kvs content = inr (k, v) -> (k, v) ∈ kvs /\ convertField v = None.
Proof.
  revert content. induction kvs as [|[k0 v0] kvs IH]; intros content H; simpl in *.
  - discriminate.
  - destruct (convertField v0) as [x|] eqn:Ex.
    + destruct (IH _ H) as [Hin Hc]. split; [right; exact Hin | exact Hc].
    + inversion H; subst. split; [left | exact Ex].
Qed.


Lemma convertFields_succeeds kvs content :
  (forall k v, (k, v) ∈ kvs -> is_Some (convertField v)) ->
  exists content', convertFields kvs content = inl content'.
Proof.
  revert content. induction kvs as [|[k0 v0] kvs IH]; intros content Hall; simpl.
  - eauto.
  - destruct (Hall k0 v0) as [x Ex]; [left|]. rewrite Ex.
    apply IH. intros k v Hin. apply (Hall k v). right. exact Hin.
Qed.

(** The promotions remove from the fields exactly the listed names, and touch
    neither the tags nor the timestamp. *)
Lemma promoteField_fold mFields attrs content m :
  Fields m ⊆ mFields ->
  let r := fold_left (promoteField mFields) attrs (content, m) in
  (forall k, Fields r.2 !! k = if decide (k ∈ attrs) then None else Fields m !! k)
  /\ Tags r.2 = Tags m /\ MTime r.2 = MTime m.
Proof.
  revert content m. induction attrs as [|a attrs IH]; intros content m Hsub;
    cbn [fold_left snd].
  - split; [|split; reflexivity]. intros k. case_decide as H; [|reflexivity].
    apply elem_of_nil in H. contradiction.
  - set (acc := promoteField mFields (content, m) a).
    assert (Hacc : Fields acc.2 = delete a (Fields m)
                   /\ Tags acc.2 = Tags m /\ MTime acc.2 = MTime m).
    { subst acc. unfold promoteField. destruct (mFields !! a) eqn:E; simpl.
      - repeat split.
      - split; [|split; reflexivity]. symmetry. apply delete_id.
        destruct (Fields m !! a) eqn:E'; [|reflexivity].
        rewrite (lookup_weaken _ _ _ _ E' Hsub) in E. discriminate. }
    destruct Hacc as (HF & HT & HM).
    destruct acc as [content1 m1] eqn:Eacc. simpl in HF, HT, HM.
    destruct (IH content1 m1) as (IF & IT & IM).
    { rewrite HF. etrans; [apply delete_subseteq | exact Hsub]. }
    split; [|split; congruence].
    intros k. rewrite IF, HF.
    destruct (decide (k ∈ attrs)) as [Hin|Hnin];
      destruct (decide (k ∈ a :: attrs)) as [Hin'|Hnin']; try reflexivity.
    + exfalso. apply Hnin'. right. exact Hin.
    + apply elem_of_cons in Hin' as [->|?]; [apply lookup_delete_eq | contradiction].
    + apply lookup_delete_ne. intros ->. apply Hnin'. left.
Qed.

(** The fields [buildContent] converts: those of the record that the
    [attributesInFields] tag does not name. *)
Lemma buildContent_remaining m :
  exists content0 m1,
    (forall k, Fields m1 !! k = if decide (k ∈ promoted m) then None else Fields m !! k)
    /\ MTime m1 = MTime m
    /\ buildContent m =
       match convertFields (map_to_list (Fields m1)) content0 with
       | inl content => inl (content, m1)
       | inr kv => inr kv
       end.
Proof.
  unfold buildContent, promoted.
  destruct (Tags m !! attributesInFields) as [val|] eqn:E.
  - pose proof (promoteField_fold (Fields m) (GoStrings.Split val ",") ∅ m
                  (reflexivity _)) as (HF & HT & HM).
    destruct (fold_left (promoteField (Fields m)) (GoStrings.Split val ",") (∅, m))
      as [content1 m1]. simpl in HF, HT, HM.
    eexists _, (RemoveTag attributesInFields m1). split; [exact HF|].
    split; [exact HM|]. reflexivity.
  - eexists _, m. split; [|split; reflexivity].
    intros k. case_decide as H; [|reflexivity]. apply elem_of_nil in H. contradiction.
Qed.

Lemma buildContent_inl m content m' k v :
  buildContent m = inl (content, m') ->
  Fields m !! k = Some v -> k ∉ promoted m ->
  content !! k = convertField v /\ is_Some (convertField v) /\ MTime m' = MTime m.
Proof.
  intros Hb Hk Hp.
  destruct (buildContent_remaining m) as (content0 & m1 & HF & HM & Hbc).
  rewrite Hbc in Hb.
  destruct (convertFields (map_to_list (Fields m1)) content0) as [c|kv] eqn:Ec;
    [|discriminate].
  inversion Hb; subst.
  assert (Hin : (k, v) ∈ map_to_list (Fields m')).
  { apply elem_of_map_to_list. rewrite HF. case_decide; [contradiction | exact Hk]. }
  destruct (convertFields_inl _ _ _ _ _ Ec (NoDup_fst_map_to_list _) Hin) as [H1 H2].
  auto.
Qed.


Lemma buildContent_supported m :
  (forall k v, Fields m !! k = Some v -> k ∉ promoted m -> is_Some (convertField v)) ->
  exists content m', buildContent m = inl (content, m').
Proof.
  intros Hall.
  destruct (buildContent_remaining m) as (content0 & m1 & HF & HM & Hbc).
  rewrite Hbc.
  destruct (convertFields_succeeds (map_to_list (Fields m1)) content0) as [c Hc].
  { intros k v Hin. apply elem_of_map_to_list in Hin. rewrite HF in Hin.
    case_decide; [discriminate|]. eapply Hall; eauto. }
  rewrite Hc. eauto.
Qed.

(** [getTargetFromMetric] leaves the fields and the [attributesInFields] tag
    of the record as they were. *)
Lemma getTargetFromMetric_metric c m :
  let m' := (getTargetFromMetric c m).2 in
  Fields m' = Fields m /\ promoted m' = promoted m /\ MTime m' = MTime m
  /\ HasField m' LogEntryField = HasField m LogEntryField.
Proof.
  unfold getTargetFromMetric, promoted, HasField.
  destruct (Tags m !! LogGroupNameTag); [|repeat split].
  destruct (Tags m !! LogStreamNameTag); simpl;
    rewrite ?lookup_delete_ne by (compute; congruence); repeat split.
Qed.

End ClassifierFacts.

Section ClassifierTheorems.

Variable json_Marshal : gmap string value -> option string.
Variable UserAgent : string.

Implicit Types (s : state) (c : CloudWatchLogs) (m : Metric).

Lemma buildContent_time m content m' :
  buildContent m = inl (content, m') -> MTime m' = MTime m.
Proof.
  intros Hb.
  destruct (buildContent_remaining m) as (content0 & m1 & _ & HM & Hbc).
  rewrite Hbc in Hb.
  destruct (convertFields (map_to_list (Fields m1)) content0); [|discriminate].
  inversion Hb; subst. exact HM.
Qed.

Lemma switchToEMF_received cd :
  received (cwPusher (switchToEMF cd)) = received (cwPusher cd).
Proof.
  unfold switchToEMF. destruct (isEMF cd); simpl; [reflexivity|].
  destruct (Service (cwPusher cd)); reflexivity.
Qed.




(** A record for which an event is built has it handed, by the non-blocking
    enqueue, to the pusher of the destination of its target. *)
Lemma write_with_event m s e :
  wf s ->
  let r := getTargetFromMetric (plugin s) m in
  (forall c, (getLogEventFromMetric json_Marshal c r.2).1 = Some e) ->
  let s' := writeMetricAsStructuredLog json_Marshal UserAgent m s in
  exists l cd,
    cwDests (plugin s') !! r.1.1 = Some l
    /\ heap s' !! l = Some cd
    /\ last (received (cwPusher cd)) = Some (CallAddEventNonBlocking e).
Proof.
  intros Hwf r Hev s'.
  destruct (writeMetricAsStructuredLog_unfold json_Marshal UserAgent m s Hwf)
    as (cd & Hcd & Hw).
  cbv zeta in Hcd, Hw. fold r in Hcd, Hw. fold s' in Hw.
  set (s0 := match r.1.2 with Some x => _ | None => s end) in *.
  set (l := (getDest UserAgent r.1.1 s0).1) in *.
  set (s1 := (getDest UserAgent r.1.1 s0).2) in *.
  rewrite Hev in Hw.
  eexists l, _. rewrite Hw. cbn [plugin heap].
  split; [|split].
  - destruct (getLogEventFromMetric_plugin json_Marshal (plugin s1) r.2) as (Hc & _).
    rewrite Hc. apply getDest_lookup.
  - apply list_lookup_insert_eq. eapply lookup_lt_Some, Hcd.
  - unfold AddEvent. cbn [isEMF]. rewrite switchToEMF_isEMF. cbn.
    apply last_snoc.
Qed.

(** C1. A record without the [log_group_name] tag gets no target from
    [getTargetFromMetric], only the error, which is logged; the record is then
    routed all the same, to the destination of the empty target, which is
    created when the map does not hold it, and an event built from the record
    is enqueued there. *)
Theorem missing_group_tag_creates_destination m s :
  wf s ->
  Tags m !! LogGroupNameTag = None ->
  cwDests (plugin s) !! mkTarget "" "" = None ->
  let s' := writeMetricAsStructuredLog json_Marshal UserAgent m s in
  getTargetFromMetric (plugin s) m = (mkTarget "" "", Some (ErrNoLogGroup (Name m)), m)
  /\ ErrorFailedToFindTarget (ErrNoLogGroup (Name m)) ∈ Log (plugin s')
  /\ cwDests (plugin s') = <[mkTarget "" "" := length (heap s)]> (cwDests (plugin s))
  /\ cwDests (plugin s') <> cwDests (plugin s)
  /\ length (heap s') = S (length (heap s))
  /\ (forall x, Fields m !! LogEntryField = Some (VString x) ->
        exists cd, heap s' !! length (heap s) = Some cd
          /\ received (cwPusher cd) = [CallAddEventNonBlocking (mkEvent x (MTime m))]).
Proof.
  intros Hwf Htag Hnone s'.
  assert (Ht : getTargetFromMetric (plugin s) m
               = (mkTarget "" "", Some (ErrNoLogGroup (Name m)), m)).
  { unfold getTargetFromMetric. rewrite Htag. reflexivity. }
  destruct (writeMetricAsStructuredLog_unfold json_Marshal UserAgent m s Hwf)
    as (cd & Hcd & Hw).
  cbv zeta in Hcd, Hw. fold s' in Hw. rewrite Ht in Hcd, Hw. cbn [fst snd] in Hcd, Hw.
  unfold getDest in Hcd, Hw. cbn [plugin heap logf cwDests] in Hcd, Hw.
  rewrite Hnone in Hcd, Hw. cbn [fst snd plugin heap] in Hcd, Hw.
  set (c0 := setDests _ _) in *.
  destruct (getLogEventFromMetric_plugin json_Marshal c0 m) as (Hc & _).
  assert (Hlog : ErrorFailedToFindTarget (ErrNoLogGroup (Name m))
                 ∈ Log (getLogEventFromMetric json_Marshal c0 m).2).
  { apply getLogEventFromMetric_log. subst c0. cbn [Log setDests logf].
    apply elem_of_app. right. left. }
  split; [exact Ht|]. rewrite Hw. cbn [plugin heap].
  split; [exact Hlog|]. rewrite Hc.
  split; [reflexivity|]. split; [|split].
  - subst c0. cbn [cwDests setDests logf].
    intros Heq. assert (H' := lookup_insert_eq (cwDests (plugin s)) (mkTarget "" "") (length (heap s))).
    rewrite Heq, Hnone in H'. discriminate.
  - rewrite length_insert, length_app. simpl. lia.
  - intros x Hx. eexists. split.
    + apply list_lookup_insert_eq. rewrite length_app. simpl. lia.
    + assert (Hev : (getLogEventFromMetric json_Marshal c0 m).1 = Some (mkEvent x (MTime m))).
      { unfold getLogEventFromMetric, HasField. rewrite Hx.
        rewrite bool_decide_eq_true_2 by eauto. reflexivity. }
      rewrite Hev.
      rewrite lookup_app_r in Hcd by lia. rewrite Nat.sub_diag in Hcd.
      simpl in Hcd. inversion Hcd; subst cd. reflexivity.
Qed.

(** C5. On a record without a raw entry field whose content map the
    marshaller rejects, [getLogEventFromMetric] logs the failure and goes on:
    it returns an event with the empty message and the record's timestamp,
    and [writeMetricAsStructuredLog] enqueues that event at the destination
    of the record's target. *)
Theorem marshal_failure_still_enqueues m s content m' :
  wf s ->
  let r := getTargetFromMetric (plugin s) m in
  HasField m LogEntryField = false ->
  buildContent r.2 = inl (content, m') ->
  json_Marshal content = None ->
  let s' := writeMetricAsStructuredLog json_Marshal UserAgent m s in
  (forall c, getLogEventFromMetric json_Marshal c r.2
             = (Some (mkEvent EmptyString (MTime m)), logf ErrorMarshal c))
  /\ ErrorMarshal ∈ Log (plugin s')
  /\ (exists l cd,
        cwDests (plugin s') !! r.1.1 = Some l
        /\ heap s' !! l = Some cd
        /\ last (received (cwPusher cd))
           = Some (CallAddEventNonBlocking (mkEvent EmptyString (MTime m)))).
Proof.
  intros Hwf r Hv Hb Hj s'.
  destruct (getTargetFromMetric_metric (plugin s) m) as (_ & _ & HT & HH).
  fold r in HT, HH.
  assert (Hev : forall c, getLogEventFromMetric json_Marshal c r.2
                          = (Some (mkEvent EmptyString (MTime m)), logf ErrorMarshal c)).
  { intros c. unfold getLogEventFromMetric. rewrite HH, Hv, Hb, Hj.
    rewrite (buildContent_time _ _ _ Hb), HT. reflexivity. }
  split; [exact Hev|]. split.
  - destruct (writeMetricAsStructuredLog_unfold json_Marshal UserAgent m s Hwf)
      as (cd & _ & Hw).
    cbv zeta in Hw. fold r s' in Hw. rewrite Hw, Hev. cbn [plugin snd Log logf].
    apply elem_of_app. right. left.
  - apply (write_with_event m s (mkEvent EmptyString (MTime m)) Hwf).
    intros c. fold r. rewrite Hev. reflexivity.
Qed.


End ClassifierTheorems.

(** ** Well-formed states *)

Section Reachable.

Variable json_Marshal : gmap string value -> option string.
Variable UserAgent : string.

Lemma wf_init c : cwDests c = ∅ -> wf (mkState c []).
Proof. intros H. unfold wf. simpl. rewrite H. apply map_Forall_empty. Qed.

Lemma wf_same s s' :
  cwDests (plugin s') = cwDests (plugin s) -> length (heap s') = length (heap s) ->
  wf s -> wf s'.
Proof. unfold wf. intros -> ->. auto. Qed.

Lemma writeMetricAsStructuredLog_wf m s :
  wf s -> wf (writeMetricAsStructuredLog json_Marshal UserAgent m s).
Proof.
  intros Hwf.
  destruct (writeMetricAsStructuredLog_router json_Marshal UserAgent m s) as [Hc Hl].
  eapply wf_same; [exact Hc | exact Hl |].
  apply getDest_wf. destruct ((getTargetFromMetric (plugin s) m).1.2); exact Hwf.
Qed.

Lemma Close_length s : length (heap (Close s)) = length (heap s).
Proof.
  unfold Close. cbn [heap].
  generalize (map_to_list (cwDests (plugin s))) (heap s).
  intros kvs. induction kvs as [|kv kvs IH]; intros h; simpl; [reflexivity|].
  rewrite IH. apply modifyDest_length.
Qed.

Lemma act_wf a s : wf s -> wf (act json_Marshal UserAgent s a).
Proof.
  intros Hwf. destruct a as [group stream|metrics| |l op]; cbn [act].
  - apply getDest_wf, Hwf.
  - unfold Write. revert s Hwf. induction metrics as [|m ms IH]; intros s Hwf; simpl.
    + exact Hwf.
    + apply IH, writeMetricAsStructuredLog_wf, Hwf.
  - apply (wf_same s); [reflexivity | apply Close_length | exact Hwf].
  - apply (wf_same s); [reflexivity | apply modifyDest_length | exact Hwf].
Qed.

(** Every state the plugin reaches from its initial one is well formed. *)
Lemma run_wf acts s : wf s -> wf (run json_Marshal UserAgent acts s).
Proof.
  unfold run. revert s. induction acts as [|a acts IH]; intros s Hwf; simpl.
  - exact Hwf.
  - apply IH, act_wf, Hwf.
Qed.

End Reachable.

(** ** The theorems at concrete inputs *)

Lemma wf_state0 : wf state0.
Proof. apply wf_init. reflexivity. Defined.

Lemma getDest_idempotent_witness :
  wf state0
  /\ getDest agent (mkTarget "g" "s") (getDest agent (mkTarget "g" "s") state0).2
     = getDest agent (mkTarget "g" "s") state0.
Proof.
  split; [exact wf_state0|].
  exact (proj1 (proj2 (getDest_idempotent exampleMarshal agent (mkTarget "g" "s")
                         state0 wf_state0)) []).
Defined.

Lemma Publish_detects_EMF_witness :
  isEMF (newDest agent initPlugin (mkTarget "g" "s")) = false
  /\ isEMF (publishOne (newDest agent initPlugin (mkTarget "g" "s"))
              (mkEvent (String.append "{" (String.append emfMarker ":[]}")) (mkTime 0 0)))
     = true.
Proof.
  split; [reflexivity|].
  apply (proj1 (proj2 (proj2 (Publish_detects_EMF
           (newDest agent initPlugin (mkTarget "g" "s"))
           (mkEvent (String.append "{" (String.append emfMarker ":[]}")) (mkTime 0 0))
           eq_refl)))).
  split; [|split].
  - exists (String.append emfMarker ":[]}"). reflexivity.
  - exists (String.append "{" (String.append emfMarker ":[]")). reflexivity.
  - exists "{", ":[]}". reflexivity.
Defined.

Lemma metric_retry_timeout_witness :
  wf state0
  /\ exists l cd,
       cwDests (plugin (writeMetricAsStructuredLog exampleMarshal agent metricNaN state0))
         !! mkTarget "g" "" = Some l
       /\ heap (writeMetricAsStructuredLog exampleMarshal agent metricNaN state0) !! l = Some cd
       /\ RetryDuration (cwPusher cd) = 120000000000%Z.
Proof.
  split; [exact wf_state0|].
  exact (proj1 (metric_retry_timeout exampleMarshal agent metricNaN state0 wf_state0)).
Defined.

Lemma missing_group_tag_creates_destination_witness :
  wf state0
  /\ Tags metricNoGroup !! LogGroupNameTag = None
  /\ cwDests (plugin state0) !! mkTarget "" "" = None
  /\ cwDests (plugin (writeMetricAsStructuredLog exampleMarshal agent metricNoGroup state0))
     = {[ mkTarget "" "" := 0 ]}
  /\ length (heap (writeMetricAsStructuredLog exampleMarshal agent metricNoGroup state0)) = 1.
Proof.
  split; [exact wf_state0|]. split; [reflexivity|]. split; [reflexivity|].
  pose proof (missing_group_tag_creates_destination exampleMarshal agent metricNoGroup
                state0 wf_state0 eq_refl eq_refl) as H.
  cbv zeta in H. destruct H as (_ & _ & H1 & _ & H2 & _).
  split; [exact H1 | exact H2].
Defined.

Lemma marshal_failure_still_enqueues_witness :
  wf state0
  /\ HasField metricNaN LogEntryField = false
  /\ buildContent (getTargetFromMetric (plugin state0) metricNaN).2
     = inl ({[ "usage" := VFloat64 S754_nan ]},
            mkMetric "cpu" ∅ {[ "usage" := VFloat64 S754_nan ]} (mkTime 1700000000 0))
  /\ exampleMarshal {[ "usage" := VFloat64 S754_nan ]} = None
  /\ getLogEventFromMetric exampleMarshal initPlugin
       (getTargetFromMetric (plugin state0) metricNaN).2
     = (Some (mkEvent "" (mkTime 1700000000 0)), logf ErrorMarshal initPlugin).
Proof.
  split; [exact wf_state0|]. split; [reflexivity|].
  split; [vm_compute; reflexivity|]. split; [vm_compute; reflexivity|].
  exact (proj1 (marshal_failure_still_enqueues exampleMarshal agent metricNaN state0
                  {[ "usage" := VFloat64 S754_nan ]}
                  (mkMetric "cpu" ∅ {[ "usage" := VFloat64 S754_nan ]} (mkTime 1700000000 0))
                  wf_state0 eq_refl eq_refl eq_refl) initPlugin).
Defined.



(** ** Examples *)

Example HasPrefix_brace : GoStrings.HasPrefix "{a}" "{" = true.
Proof. reflexivity. Qed.

Example HasSuffix_brace : GoStrings.HasSuffix "{a}" "}" = true.
Proof. reflexivity. Qed.

Example Contains_middle : GoStrings.Contains "xaby" "ab" = true.
Proof. reflexivity. Qed.

Example Contains_absent : GoStrings.Contains "xaby" "ba" = false.
Proof. reflexivity. Qed.

Example Split_three : GoStrings.Split "a,,bc" "," = ["a"; ""; "bc"].
Proof. reflexivity. Qed.

Example Split_empty : GoStrings.Split "" "," = [""].
Proof. reflexivity. Qed.

Example float64_of_three : float64_of_Z 3 = S754_finite false 6755399441055744 (-51).
Proof. reflexivity. Qed.

Example float64_rounds_to_even :
  float64_of_Z (2 ^ 53 + 1) = S754_finite false 4503599627370496 1.
Proof. reflexivity. Qed.

Example timeouts_in_seconds :
  (metricRetryTimeout / Second = 120)%Z /\ (maxRetryTimeout / Second = 1210200)%Z.
Proof. split; reflexivity. Qed.

Example plain_message_keeps_mode :
  isEMF (publishOne (newDest agent initPlugin (mkTarget "g" "s"))
           (mkEvent "{not metrics}" (mkTime 0 0))) = false.
Proof. reflexivity. Qed.

Example promoted_field_is_copied :
  buildContent
    (mkMetric "cpu" {[ "attributesInFields" := "ch" ]}
       {[ "usage" := VInt64 3; "ch" := VOther "chan int" ]} (mkTime 0 0))
  = inl ({[ "ch" := VOther "chan int"; "usage" := VFloat64 (float64_of_Z 3) ]},
         mkMetric "cpu" ∅ {[ "usage" := VInt64 3 ]} (mkTime 0 0)).
Proof. vm_compute. reflexivity. Qed.

Example raw_entry_is_the_message :
  getLogEventFromMetric exampleMarshal initPlugin metricNoGroup
  = (Some (mkEvent "hello" (mkTime 1700000000 0)), initPlugin).
Proof. vm_compute. reflexivity. Qed.

(** * Further properties *)

(** ** How a destination evolves *)

Section EvolveFacts.

Implicit Types (cd : cwDest) (e : structuredLogEvent) (op : destOp) (h : list cwDest).

Lemma evolves_refl cd : evolves cd cd.
Proof. unfold evolves. repeat split; auto. Qed.

Lemma evolves_trans cd1 cd2 cd3 : evolves cd1 cd2 -> evolves cd2 cd3 -> evolves cd1 cd3.
Proof.
  unfold evolves. intros (T1 & S1 & M1 & R1) (T2 & S2 & M2 & R2).
  split; [congruence|]. split; [auto|]. split; [auto|]. etrans; eassumption.
Qed.

Lemma evolves_AddEvent e cd : evolves cd (AddEvent e cd).
Proof.
  unfold evolves, AddEvent.
  destruct (isEMF cd) eqn:E; cbn; rewrite ?E; repeat split; auto;
    apply prefix_app_r; reflexivity.
Qed.

Lemma evolves_switchToEMF cd : evolves cd (switchToEMF cd).
Proof.
  unfold evolves, switchToEMF.
  destruct (isEMF cd) eqn:E; cbn; rewrite ?E; repeat split; auto;
    destruct (Service (cwPusher cd)); reflexivity.
Qed.

Lemma evolves_Stop cd : evolves cd (Stop cd).
Proof.
  unfold evolves, Stop. cbn. repeat split; auto. apply prefix_app_r. reflexivity.
Qed.

Lemma evolves_setRetryer r cd : evolves cd (setRetryer r cd).
Proof.
  unfold evolves, setRetryer.
  destruct (Service (cwPusher cd)); cbn; repeat split; auto.
Qed.

Lemma evolves_setRetryDuration d cd :
  evolves cd (mkDest (setRetryDuration d (cwPusher cd)) (isEMF cd) (stopped cd)).
Proof. unfold evolves. cbn. repeat split; auto. Qed.

Lemma evolves_publishOne cd e : evolves cd (publishOne cd e).
Proof.
  unfold publishOne.
  eapply evolves_trans; [|apply evolves_AddEvent].
  destruct (negb (isEMF cd)); [|apply evolves_refl].
  destruct (looksLikeEMF (Message e)); [apply evolves_switchToEMF | apply evolves_refl].
Qed.

Lemma evolves_Publish events cd : evolves cd (Publish events cd).1.
Proof.
  unfold Publish; cbn [fst]. revert cd.
  induction events as [|e events IH]; intros cd; cbn [fold_left]; [apply evolves_refl|].
  eapply evolves_trans; [apply evolves_publishOne | apply IH].
Qed.

Lemma evolves_applyOp op cd : evolves cd (applyOp cd op).
Proof.
  destruct op; cbn [applyOp].
  - apply evolves_Publish.
  - apply evolves_Stop.
  - apply evolves_AddEvent.
  - apply evolves_switchToEMF.
  - apply evolves_setRetryer.
  - apply evolves_setRetryDuration.
Qed.

Lemma heapEvolves_refl h : heapEvolves h h.
Proof. intros l cd H. exists cd. split; [exact H | apply evolves_refl]. Qed.

Lemma heapEvolves_trans h1 h2 h3 :
  heapEvolves h1 h2 -> heapEvolves h2 h3 -> heapEvolves h1 h3.
Proof.
  intros H12 H23 l cd H. destruct (H12 l cd H) as (cd2 & H2 & E2).
  destruct (H23 l cd2 H2) as (cd3 & H3 & E3).
  exists cd3. split; [exact H3 | eapply evolves_trans; eassumption].
Qed.

Lemma heapEvolves_modifyDest l f h :
  (forall cd, evolves cd (f cd)) -> heapEvolves h (modifyDest l f h).
Proof.
  intros Hf l' cd H. destruct (decide (l = l')) as [->|Hne].
  - exists (f cd). rewrite modifyDest_lookup, H. split; [reflexivity | apply Hf].
  - exists cd. rewrite modifyDest_lookup_ne by exact Hne.
    split; [exact H | apply evolves_refl].
Qed.

Lemma heapEvolves_app h h' : heapEvolves h (h ++ h').
Proof.
  intros l cd H. exists cd. split; [|apply evolves_refl].
  apply lookup_app_l_Some, H.
Qed.

End EvolveFacts.

(** ** Invariants of the reachable states *)

Section InvariantFacts.

Variable json_Marshal : gmap string value -> option string.
Variable UserAgent : string.

Implicit Types (s : state) (c : CloudWatchLogs) (tg : Target) (m : Metric).

Lemma getDest_heapEvolves tg s : heapEvolves (heap s) (heap (getDest UserAgent tg s).2).
Proof.
  unfold getDest. destruct (cwDests (plugin s) !! tg); cbn [snd heap].
  - apply heapEvolves_refl.
  - apply heapEvolves_app.
Qed.

(** The store after a record, from the store in which its target was
    resolved. *)
Lemma writeMetricAsStructuredLog_heapEvolves m s :
  let r := getTargetFromMetric (plugin s) m in
  let s0 := match r.1.2 with
            | Some e => mkState (logf (ErrorFailedToFindTarget e) (plugin s)) (heap s)
            | None => s
            end in
  heapEvolves (heap (getDest UserAgent r.1.1 s0).2)
    (heap (writeMetricAsStructuredLog json_Marshal UserAgent m s))
  /\ heapEvolves (heap s) (heap (writeMetricAsStructuredLog json_Marshal UserAgent m s)).
Proof.
  cbv zeta. unfold writeMetricAsStructuredLog.
  destruct (getTargetFromMetric (plugin s) m) as [[tg err] m1]. cbn [fst snd].
  set (s0 := match err with Some e => _ | None => s end).
  assert (H0 : heap s0 = heap s) by (subst s0; destruct err; reflexivity).
  pose proof (getDest_heapEvolves tg s0) as Hg. rewrite H0 in Hg.
  destruct (getDest UserAgent tg s0) as [l s1]. cbn [fst snd] in *.
  assert (Hstep : heapEvolves (heap s1)
            (heap match heap s1 !! l with
                  | Some _ =>
                      let h := modifyDest l switchToEMF (heap s1) in
                      let h := modifyDest l
                                 (fun cd => mkDest (setRetryDuration metricRetryTimeout (cwPusher cd))
                                              (isEMF cd) (stopped cd)) h in
                      let '(e, c) := getLogEventFromMetric json_Marshal (plugin s1) m1 in
                      match e with
                      | Some e0 => mkState c (modifyDest l (AddEvent e0) h)
                      | None => mkState c h
                      end
                  | None => mkState (logf (WarnNoDestination (Group tg) (Stream tg)) (plugin s1)) (heap s1)
                  end)).
  { destruct (heap s1 !! l); [|apply heapEvolves_refl]. cbv zeta.
    assert (H2 : heapEvolves (heap s1)
              (modifyDest l
                 (fun cd => mkDest (setRetryDuration metricRetryTimeout (cwPusher cd))
                              (isEMF cd) (stopped cd))
                 (modifyDest l switchToEMF (heap s1)))).
    { eapply heapEvolves_trans; apply heapEvolves_modifyDest;
        [apply evolves_switchToEMF | intros cd; apply evolves_setRetryDuration]. }
    destruct (getLogEventFromMetric json_Marshal (plugin s1) m1) as [[e|] c']; cbn [heap].
    - eapply heapEvolves_trans; [exact H2|].
      apply heapEvolves_modifyDest. intros cd. apply evolves_AddEvent.
    - exact H2. }
  split; [exact Hstep | eapply heapEvolves_trans; [exact Hg | exact Hstep]].
Qed.

Lemma Close_heapEvolves s : heapEvolves (heap s) (heap (Close s)).
Proof.
  unfold Close. cbn [heap].
  generalize (map_to_list (cwDests (plugin s))) (heap s).
  intros kvs. induction kvs as [|kv kvs IH]; intros h; cbn [fold_left].
  - apply heapEvolves_refl.
  - eapply heapEvolves_trans; [|apply IH].
    apply heapEvolves_modifyDest, evolves_Stop.
Qed.

Lemma act_heapEvolves a s : heapEvolves (heap s) (heap (act json_Marshal UserAgent s a)).
Proof.
  destruct a as [group stream|metrics| |l op]; cbn [act].
  - apply getDest_heapEvolves.
  - unfold Write. revert s. induction metrics as [|m ms IH]; intros s; cbn [fold_left].
    + apply heapEvolves_refl.
    + eapply heapEvolves_trans; [|apply IH].
      apply (writeMetricAsStructuredLog_heapEvolves m s).
  - apply Close_heapEvolves.
  - cbn [heap]. apply heapEvolves_modifyDest. intros cd. apply evolves_applyOp.
Qed.

Lemma run_heapEvolves acts s :
  heapEvolves (heap s) (heap (run json_Marshal UserAgent acts s)).
Proof.
  unfold run. revert s. induction acts as [|a acts IH]; intros s; cbn [fold_left].
  - apply heapEvolves_refl.
  - eapply heapEvolves_trans; [apply act_heapEvolves | apply IH].
Qed.

Lemma bound_wf s : bound s -> wf s.
Proof.
  intros Hb tg l H. cbn. specialize (Hb tg l H).
  apply lookup_lt_Some in Hb. unfold targetsOf in Hb.
  rewrite length_fmap in Hb. exact Hb.
Qed.

Lemma bound_separate s : bound s -> separate s.
Proof. intros Hb tg1 tg2 l H1 H2. pose proof (Hb _ _ H1). pose proof (Hb _ _ H2). congruence. Qed.

Lemma bound_evolves s s' :
  cwDests (plugin s') = cwDests (plugin s) -> heapEvolves (heap s) (heap s') ->
  bound s -> bound s'.
Proof.
  intros Hc He Hb tg l H. rewrite Hc in H. specialize (Hb tg l H).
  unfold targetsOf in *. rewrite list_lookup_fmap in *.
  destruct (heap s !! l) as [cd|] eqn:E; [|discriminate].
  destruct (He l cd E) as (cd' & E' & (HT & _)).
  rewrite E'. cbn in *. congruence.
Qed.

Lemma getDest_bound tg s : bound s -> bound (getDest UserAgent tg s).2.
Proof.
  intros Hb. unfold getDest.
  destruct (cwDests (plugin s) !! tg) eqn:E; cbn [snd]; [exact Hb|].
  intros tg' l H. cbn in H. unfold targetsOf. cbn [heap].
  rewrite fmap_app. destruct (decide (tg = tg')) as [->|Hne].
  - rewrite lookup_insert_eq in H. inversion H; subst l.
    rewrite lookup_app_r by (rewrite length_fmap; lia).
    rewrite length_fmap, Nat.sub_diag. reflexivity.
  - rewrite lookup_insert_ne in H by exact Hne.
    apply lookup_app_l_Some. apply Hb, H.
Qed.

Lemma writeMetricAsStructuredLog_bound m s :
  bound s -> bound (writeMetricAsStructuredLog json_Marshal UserAgent m s).
Proof.
  intros Hb.
  destruct (writeMetricAsStructuredLog_router json_Marshal UserAgent m s) as [Hc _].
  destruct (writeMetricAsStructuredLog_heapEvolves m s) as [He _].
  eapply bound_evolves; [exact Hc | exact He |].
  apply getDest_bound. destruct ((getTargetFromMetric (plugin s) m).1.2); exact Hb.
Qed.

Lemma act_bound a s : bound s -> bound (act json_Marshal UserAgent s a).
Proof.
  intros Hb. destruct a as [group stream|metrics| |l op]; cbn [act].
  - apply getDest_bound, Hb.
  - unfold Write. revert s Hb. induction metrics as [|m ms IH]; intros s Hb; cbn [fold_left].
    + exact Hb.
    + apply IH, writeMetricAsStructuredLog_bound, Hb.
  - apply (bound_evolves s); [reflexivity | apply Close_heapEvolves | exact Hb].
  - apply (bound_evolves s); [reflexivity | | exact Hb].
    apply (act_heapEvolves (ADest l op) s).
Qed.

Lemma run_bound acts s : bound s -> bound (run json_Marshal UserAgent acts s).
Proof.
  unfold run. revert s. induction acts as [|a acts IH]; intros s Hb; cbn [fold_left].
  - exact Hb.
  - apply IH, act_bound, Hb.
Qed.

Lemma bound_init c : cwDests c = ∅ -> bound (mkState c []).
Proof. intros H tg l Hl. cbn in Hl. rewrite H, lookup_empty in Hl. discriminate. Qed.

(** As many destinations as targets. *)
Lemma getDest_count tg s :
  length (heap s) = size (cwDests (plugin s)) ->
  length (heap (getDest UserAgent tg s).2) = size (cwDests (plugin (getDest UserAgent tg s).2)).
Proof.
  intros H. unfold getDest.
  destruct (cwDests (plugin s) !! tg) eqn:E; cbn [snd]; [exact H|].
  cbn. rewrite length_app, map_size_insert_None by exact E. cbn. lia.
Qed.

Lemma act_count a s :
  length (heap s) = size (cwDests (plugin s)) ->
  length (heap (act json_Marshal UserAgent s a))
  = size (cwDests (plugin (act json_Marshal UserAgent s a))).
Proof.
  intros H. destruct a as [group stream|metrics| |l op]; cbn [act].
  - apply getDest_count, H.
  - unfold Write. revert s H. induction metrics as [|m ms IH]; intros s H; cbn [fold_left].
    + exact H.
    + apply IH.
      destruct (writeMetricAsStructuredLog_router json_Marshal UserAgent m s) as [Hc Hl].
      rewrite Hc, Hl. apply getDest_count.
      destruct ((getTargetFromMetric (plugin s) m).1.2); exact H.
  - rewrite Close_length. exact H.
  - cbn. rewrite modifyDest_length. exact H.
Qed.

Lemma run_count acts s :
  length (heap s) = size (cwDests (plugin s)) ->
  length (heap (run json_Marshal UserAgent acts s))
  = size (cwDests (plugin (run json_Marshal UserAgent acts s))).
Proof.
  unfold run. revert s. induction acts as [|a acts IH]; intros s H; cbn [fold_left].
  - exact H.
  - apply IH, act_count, H.
Qed.

End InvariantFacts.

Section LifecycleTheorems.

Variable json_Marshal : gmap string value -> option string.
Variable UserAgent : string.

Implicit Types (s : state) (c : CloudWatchLogs) (tg : Target).

(** The loop of [Close] over a list of map entries with distinct
    destinations calls [Stop] once on each of them and on nothing else. *)
Lemma Close_fold (kvs : list (Target * nat)) (h : list cwDest) l :
  NoDup kvs.*2 ->
  fold_left (fun h kv => modifyDest kv.2 Stop h) kvs h !! l
  = if decide (l ∈ kvs.*2) then Stop <$> h !! l else h !! l.
Proof.
  revert h. induction kvs as [|[tg0 l0] kvs IH]; intros h Hnd; cbn [fold_left].
  - case_decide as H; [|reflexivity]. apply elem_of_nil in H. contradiction.
  - cbn in Hnd. apply NoDup_cons in Hnd as [Hl0 Hnd]. rewrite (IH _ Hnd). cbn [snd].
    destruct (decide (l = l0)) as [->|Hne].
    + rewrite modifyDest_lookup.
      destruct (decide (l0 ∈ kvs.*2)) as [?|_]; [contradiction|].
      destruct (decide (l0 ∈ ((tg0, l0) :: kvs).*2)) as [_|Hn]; [reflexivity|].
      exfalso. apply Hn. left.
    + rewrite modifyDest_lookup_ne by congruence.
      destruct (decide (l ∈ kvs.*2)) as [Hin|Hnin];
        destruct (decide (l ∈ ((tg0, l0) :: kvs).*2)) as [Hin'|Hnin']; try reflexivity.
      * exfalso. apply Hnin'. right. exact Hin.
      * exfalso. cbn in Hin'. apply elem_of_cons in Hin' as [?|?]; [congruence | contradiction].
Qed.

Lemma Close_range s l :
  l ∈ (map_to_list (cwDests (plugin s))).*2
  <-> exists tg, cwDests (plugin s) !! tg = Some l.
Proof.
  rewrite list_elem_of_fmap. split.
  - intros [[tg l'] [-> Hin]]. exists tg. apply elem_of_map_to_list, Hin.
  - intros [tg Htg]. exists (tg, l). split; [reflexivity|].
    apply elem_of_map_to_list, Htg.
Qed.

Lemma Close_NoDup s : separate s -> NoDup (map_to_list (cwDests (plugin s))).*2.
Proof.
  intros Hsep. apply NoDup_fmap_2_strong; [|apply NoDup_map_to_list].
  intros [tg1 l1] [tg2 l2] H1 H2 Heq. cbn in Heq. subst l2.
  apply elem_of_map_to_list in H1, H2.
  rewrite (Hsep tg1 tg2 l1 H1 H2). reflexivity.
Qed.

Lemma Close_lookup s tg l :
  separate s -> cwDests (plugin s) !! tg = Some l ->
  heap (Close s) !! l = Stop <$> heap s !! l.
Proof.
  intros Hsep Htg. unfold Close. cbn [heap].
  rewrite Close_fold by apply Close_NoDup, Hsep.
  case_decide as Hin; [reflexivity|].
  exfalso. apply Hin, Close_range. eauto.
Qed.

Lemma Close_lookup_other s l :
  separate s -> (forall tg, cwDests (plugin s) !! tg <> Some l) ->
  heap (Close s) !! l = heap s !! l.
Proof.
  intros Hsep Hno. unfold Close. cbn [heap].
  rewrite Close_fold by apply Close_NoDup, Hsep.
  case_decide as Hin; [|reflexivity].
  apply Close_range in Hin as [tg Htg]. exfalso. exact (Hno tg Htg).
Qed.

(** X1. In every state the plugin reaches from an empty map, each target of
    the map points to a destination of the store whose pusher was made for
    that target, no destination is shared by two targets, and the store holds
    as many destinations as the map has targets. *)
Theorem one_destination_per_target c acts :
  cwDests c = ∅ ->
  let s := run json_Marshal UserAgent acts (mkState c []) in
  (forall tg l, cwDests (plugin s) !! tg = Some l ->
     exists cd, heap s !! l = Some cd /\ PTarget (cwPusher cd) = tg)
  /\ (forall tg1 tg2 l,
        cwDests (plugin s) !! tg1 = Some l -> cwDests (plugin s) !! tg2 = Some l ->
        tg1 = tg2)
  /\ length (heap s) = size (cwDests (plugin s)).
Proof.
  intros Hc s.
  assert (Hb : bound s) by (apply run_bound, bound_init, Hc).
  split; [|split].
  - intros tg l H. specialize (Hb tg l H). unfold targetsOf in Hb.
    apply list_lookup_fmap_Some in Hb as (cd & ? & ?). eauto.
  - exact (bound_separate s Hb).
  - apply run_count. cbn. rewrite Hc, map_size_empty. reflexivity.
Qed.

(** X2. Nothing the host or the log-forwarding side does takes a destination
    away or resets it: after any sequence of operations every target of the
    map still points to the same location, and the destination at each
    location of the store is still bound to the same target, is still stopped
    if it was, still in EMF mode if it was, and has received the earlier calls
    followed by the later ones. *)
Theorem destinations_only_evolve acts s l cd :
  heap s !! l = Some cd ->
  let s' := run json_Marshal UserAgent acts s in
  cwDests (plugin s) ⊆ cwDests (plugin s')
  /\ exists cd',
       heap s' !! l = Some cd'
       /\ PTarget (cwPusher cd') = PTarget (cwPusher cd)
       /\ (stopped cd = true -> stopped cd' = true)
       /\ (isEMF cd = true -> isEMF cd' = true)
       /\ received (cwPusher cd) `prefix_of` received (cwPusher cd').
Proof.
  intros H s'. split; [apply run_mono|].
  destruct (run_heapEvolves json_Marshal UserAgent acts s l cd H) as (cd' & H' & He).
  exists cd'. split; [exact H' | exact He].
Qed.

(** X3. In a state reached from an empty map, [Close] keeps the plugin and
    its map and calls [Stop] exactly once on the destination of every target:
    [Publish] on it then returns the output-stopped error, and it stays
    stopped whatever is done afterwards. A target resolved for the first time
    after [Close] gets a new destination that is not stopped. *)
Theorem Close_stops_every_destination c acts :
  cwDests c = ∅ ->
  let s := run json_Marshal UserAgent acts (mkState c []) in
  plugin (Close s) = plugin s
  /\ length (heap (Close s)) = length (heap s)
  /\ (forall tg l, cwDests (plugin s) !! tg = Some l ->
        exists cd,
          heap s !! l = Some cd
          /\ heap (Close s) !! l = Some (Stop cd)
          /\ (forall events, (Publish events (Stop cd)).2 = Some ErrOutputStopped)
          /\ (forall later, exists cd',
                heap (run json_Marshal UserAgent later (Close s)) !! l = Some cd'
                /\ stopped cd' = true))
  /\ (forall tg, cwDests (plugin s) !! tg = None ->
        let r := getDest UserAgent tg (Close s) in
        exists cd, heap r.2 !! r.1 = Some cd /\ stopped cd = false
                   /\ received (cwPusher cd) = []).
Proof.
  intros Hc s.
  assert (Hb : bound s) by (apply run_bound, bound_init, Hc).
  split; [reflexivity|]. split; [apply Close_length|]. split.
  - intros tg l H.
    pose proof (Hb tg l H) as Ht. unfold targetsOf in Ht.
    apply list_lookup_fmap_Some in Ht as (cd & _ & Hcd).
    assert (Hclose : heap (Close s) !! l = Some (Stop cd)).
    { rewrite (Close_lookup s tg l (bound_separate s Hb) H), Hcd. reflexivity. }
    exists cd. split; [exact Hcd|]. split; [exact Hclose|]. split.
    + intros events. pose proof (Publish_stopped events (Stop cd)) as Hs.
      unfold Publish in *. cbn in *. rewrite Hs. reflexivity.
    + intros later.
      destruct (run_heapEvolves json_Marshal UserAgent later (Close s) l (Stop cd) Hclose)
        as (cd' & H' & (_ & Hst & _)).
      exists cd'. split; [exact H' | apply Hst; reflexivity].
  - intros tg Hnone r. subst r. unfold getDest.
    change (cwDests (plugin (Close s))) with (cwDests (plugin s)). rewrite Hnone.
    cbn [fst snd heap]. eexists. split.
    + rewrite lookup_app_r by lia. rewrite Nat.sub_diag. reflexivity.
    + split; reflexivity.
Qed.

End LifecycleTheorems.

(** ** The content map *)

Section ContentFacts.

Implicit Types (m : Metric) (content : gmap string value).

Lemma promoteField_content mFields attrs content m k :
  (fold_left (promoteField mFields) attrs (content, m)).1 !! k
  = if decide (k ∈ attrs)
    then match mFields !! k with Some v => Some v | None => content !! k end
    else content !! k.
Proof.
  revert content m. induction attrs as [|a attrs IH]; intros content m; cbn [fold_left fst].
  - case_decide as H; [|reflexivity]. apply elem_of_nil in H. contradiction.
  - destruct (promoteField mFields (content, m) a) as [content1 m1] eqn:E.
    rewrite IH.
    assert (Hc1 : content1 !! k
                  = if decide (k = a)
                    then match mFields !! k with Some v => Some v | None => content !! k end
                    else content !! k).
    { unfold promoteField in E.
      destruct (decide (k = a)) as [->|Hne].
      - destruct (mFields !! a) eqn:Ea; inversion E; subst; cbn [fst];
          [apply lookup_insert_eq | reflexivity].
      - destruct (mFields !! a) eqn:Ea; inversion E; subst; cbn [fst];
          [apply lookup_insert_ne; congruence | reflexivity]. }
    destruct (decide (k ∈ attrs)) as [Hin|Hnin];
      destruct (decide (k ∈ a :: attrs)) as [Hin'|Hnin'].
    + rewrite Hc1. destruct (mFields !! k); [reflexivity|].
      case_decide; reflexivity.
    + exfalso. apply Hnin'. right. exact Hin.
    + apply elem_of_cons in Hin' as [->|?]; [|contradiction].
      rewrite Hc1. case_decide; [reflexivity | congruence].
    + rewrite Hc1. case_decide as Hka; [|reflexivity].
      exfalso. apply Hnin'. subst. left.
Qed.

Lemma copyTag_fold (kvs : list (string * string)) content k :
  NoDup kvs.*1 ->
  fold_left copyTag kvs content !! k
  = match (list_to_map kvs : gmap string string) !! k with
    | Some x => Some (VString x)
    | None => content !! k
    end.
Proof.
  revert content. induction kvs as [|[k0 x0] kvs IH]; intros content Hnd; cbn [fold_left].
  - cbn. rewrite lookup_empty. reflexivity.
  - cbn in Hnd. apply NoDup_cons in Hnd as [Hk0 Hnd].
    rewrite (IH _ Hnd). cbn [list_to_map foldr]. unfold copyTag. cbn [fst snd].
    destruct (decide (k = k0)) as [->|Hne].
    + rewrite (not_elem_of_list_to_map_1 _ _ Hk0), !lookup_insert_eq. reflexivity.
    + rewrite !lookup_insert_ne by congruence. reflexivity.
Qed.

Lemma convertFields_lookup (F : gmap string value) content content' k :
  convertFields (map_to_list F) content = inl content' ->
  content' !! k = match F !! k with
                  | Some v => convertField v
                  | None => content !! k
                  end.
Proof.
  intros H. destruct (F !! k) as [v|] eqn:E.
  - apply (convertFields_inl _ _ _ _ _ H (NoDup_fst_map_to_list _)).
    apply elem_of_map_to_list, E.
  - apply (convertFields_frame _ _ _ _ H).
    intros Hin. apply list_elem_of_fmap in Hin as [[k' v'] [-> Hin]].
    apply elem_of_map_to_list in Hin. cbn in E. congruence.
Qed.

(** The content map of a record, key by key: a remaining field converted,
    else a tag other than [attributesInFields] as a string, else a promoted
    field as it is. *)
Lemma buildContent_lookup m content m' k :
  buildContent m = inl (content, m') ->
  content !! k
  = match (if decide (k ∈ promoted m) then None else Fields m !! k) with
    | Some v => convertField v
    | None =>
        match delete attributesInFields (Tags m) !! k with
        | Some x => Some (VString x)
        | None => if decide (k ∈ promoted m) then Fields m !! k else None
        end
    end.
Proof.
  unfold buildContent, promoted.
  destruct (Tags m !! attributesInFields) as [val|] eqn:E.
  - pose proof (promoteField_fold (Fields m) (GoStrings.Split val ",") ∅ m
                  (reflexivity _)) as (HF & _ & _).
    pose proof (promoteField_content (Fields m) (GoStrings.Split val ",") ∅ m k) as HC.
    destruct (fold_left (promoteField (Fields m)) (GoStrings.Split val ",") (∅, m))
      as [content1 m1]. cbn [fst snd] in HF, HC.
    destruct (convertFields _ _) as [c|kv] eqn:Ec; [|discriminate].
    intros Hb. inversion Hb; subst. clear Hb.
    rewrite (convertFields_lookup _ _ _ k Ec). cbn [Fields RemoveTag].
    rewrite HF.
    destruct (if decide (k ∈ GoStrings.Split val ",") then None else Fields m !! k);
      [reflexivity|].
    rewrite copyTag_fold by apply NoDup_fst_map_to_list.
    rewrite list_to_map_to_list.
    destruct (delete attributesInFields (Tags m) !! k); [reflexivity|].
    rewrite HC, lookup_empty.
    case_decide; [destruct (Fields m !! k)|]; reflexivity.
  - destruct (convertFields _ _) as [c|kv] eqn:Ec; [|discriminate].
    intros Hb. inversion Hb; subst. clear Hb.
    rewrite (convertFields_lookup _ _ _ k Ec).
    rewrite (delete_id _ _ E).
    destruct (decide (k ∈ [])) as [Hin|_]; [apply elem_of_nil in Hin; contradiction|].
    destruct (Fields m' !! k); [reflexivity|].
    rewrite copyTag_fold by apply NoDup_fst_map_to_list.
    rewrite list_to_map_to_list, lookup_empty. reflexivity.
Qed.

Lemma promoteField_name mFields attrs content m :
  Name (fold_left (promoteField mFields) attrs (content, m)).2 = Name m.
Proof.
  revert content m. induction attrs as [|a attrs IH]; intros content m; cbn [fold_left].
  - reflexivity.
  - unfold promoteField at 2. destruct (mFields !! a); rewrite IH; reflexivity.
Qed.

(** The record as [buildContent] leaves it. *)
Lemma buildContent_metric m content m' :
  buildContent m = inl (content, m') ->
  Name m' = Name m /\ MTime m' = MTime m
  /\ Tags m' = delete attributesInFields (Tags m)
  /\ (forall k, Fields m' !! k = if decide (k ∈ promoted m) then None else Fields m !! k).
Proof.
  unfold buildContent, promoted.
  destruct (Tags m !! attributesInFields) as [val|] eqn:E.
  - pose proof (promoteField_fold (Fields m) (GoStrings.Split val ",") ∅ m
                  (reflexivity _)) as (HF & HT & HM).
    pose proof (promoteField_name (Fields m) (GoStrings.Split val ",") ∅ m) as HN.
    destruct (fold_left (promoteField (Fields m)) (GoStrings.Split val ",") (∅, m))
      as [content1 m1]. cbn [fst snd] in HF, HT, HM, HN.
    destruct (convertFields _ _) as [c|kv] eqn:Ec; [|discriminate].
    intros Hb. inversion Hb; subst. clear Hb. cbn. rewrite HT. auto.
  - destruct (convertFields _ _) as [c|kv] eqn:Ec; [|discriminate].
    intros Hb. inversion Hb; subst. clear Hb.
    rewrite (delete_id _ _ E). repeat split.
Qed.

End ContentFacts.

Section ContentTheorems.

Implicit Types (s : state) (c : CloudWatchLogs) (m : Metric).

(** X4. The content map of a metric-shaped record holds, under each key, the
    converted value of the field of that name when the record has one that
    [attributesInFields] does not list; else the tag of that name, as a
    string, unless it is the [attributesInFields] tag itself; else the listed
    field of that name as it is, whatever its type; and no other key. The
    record keeps its name and time, loses the [attributesInFields] tag and the
    listed fields. *)
Theorem content_map_key_by_key m content m' :
  buildContent m = inl (content, m') ->
  (forall k,
     content !! k
     = match (if decide (k ∈ promoted m) then None else Fields m !! k) with
       | Some v => convertField v
       | None =>
           match delete attributesInFields (Tags m) !! k with
           | Some x => Some (VString x)
           | None => if decide (k ∈ promoted m) then Fields m !! k else None
           end
       end)
  /\ (forall k, content !! k = None
                <-> Fields m !! k = None
                    /\ (Tags m !! k = None \/ k = attributesInFields))
  /\ Name m' = Name m /\ MTime m' = MTime m
  /\ Tags m' = delete attributesInFields (Tags m)
  /\ (forall k, Fields m' !! k = if decide (k ∈ promoted m) then None else Fields m !! k).
Proof.
  intros Hb.
  assert (Hk := fun k => buildContent_lookup m content m' k Hb).
  split; [exact Hk|]. split; [|apply (buildContent_metric m content m' Hb)].
  intros k. rewrite Hk.
  assert (Hconv : forall v, Fields m !! k = Some v -> k ∉ promoted m ->
                            is_Some (convertField v)).
  { intros v Hv Hp. apply (buildContent_inl m content m' k v Hb Hv Hp). }
  assert (Htag : delete attributesInFields (Tags m) !! k = None
                 <-> Tags m !! k = None \/ k = attributesInFields).
  { destruct (decide (k = attributesInFields)) as [->|Hne].
    - rewrite lookup_delete_eq. tauto.
    - rewrite lookup_delete_ne by congruence. split; [tauto|]. intros [?|?]; tauto. }
  destruct (decide (k ∈ promoted m)) as [Hin|Hnin].
  - destruct (delete attributesInFields (Tags m) !! k) as [x|] eqn:Et.
    + split; [discriminate|]. intros [_ Hn]. apply Htag in Hn. discriminate.
    + split; [intros Hf; split; [exact Hf | apply Htag; reflexivity] | tauto].
  - destruct (Fields m !! k) as [v|] eqn:Ef.
    + destruct (Hconv v eq_refl Hnin) as [x Hx]. rewrite Hx.
      split; [discriminate | intros [? _]; discriminate].
    + destruct (delete attributesInFields (Tags m) !! k) as [x|] eqn:Et.
      * split; [discriminate|]. intros [_ Hn]. apply Htag in Hn. discriminate.
      * split; [intros _; split; [reflexivity | apply Htag; reflexivity] | reflexivity].
Qed.

(** X5. The tags that route a record do not reach its content: for a record
    with a log group tag, the content map built after [getTargetFromMetric]
    has a key [log_group_name], [log_stream_name] or [attributesInFields]
    only when the record has a field of that name, while every other tag that
    no unlisted field hides is copied as a string. *)
Theorem routing_tags_do_not_leak c m g content m' :
  Tags m !! LogGroupNameTag = Some g ->
  buildContent (getTargetFromMetric c m).2 = inl (content, m') ->
  (Fields m !! LogGroupNameTag = None -> content !! LogGroupNameTag = None)
  /\ (Fields m !! LogStreamNameTag = None -> content !! LogStreamNameTag = None)
  /\ (Fields m !! attributesInFields = None -> content !! attributesInFields = None)
  /\ (forall k x,
        Tags m !! k = Some x ->
        k <> LogGroupNameTag -> k <> LogStreamNameTag -> k <> attributesInFields ->
        Fields m !! k = None \/ k ∈ promoted m ->
        content !! k = Some (VString x)).
Proof.
  intros Hg Hb.
  destruct (getTargetFromMetric_metric c m) as (HF & HP & _ & _).
  assert (HT : forall k, Tags (getTargetFromMetric c m).2 !! k
                         = if decide (k = LogGroupNameTag \/ k = LogStreamNameTag)
                           then None else Tags m !! k).
  { intros k. unfold getTargetFromMetric. rewrite Hg.
    destruct (Tags m !! LogStreamNameTag) eqn:Es; cbn [snd Tags RemoveTag].
    - destruct (decide (k = LogStreamNameTag)) as [->|H1]; [rewrite lookup_delete_eq|
        rewrite lookup_delete_ne by congruence;
        destruct (decide (k = LogGroupNameTag)) as [->|H2];
          [rewrite lookup_delete_eq | rewrite lookup_delete_ne by congruence]];
        case_decide; tauto.
    - destruct (decide (k = LogGroupNameTag)) as [->|H2];
        [rewrite lookup_delete_eq | rewrite lookup_delete_ne by congruence];
        case_decide as Hd; try tauto.
      destruct Hd as [? | Hd]; [tauto | congruence]. }
  assert (Hk := fun k => buildContent_lookup _ content m' k Hb).
  assert (Hnone : forall k, (k = LogGroupNameTag \/ k = LogStreamNameTag
                              \/ k = attributesInFields) ->
                            Fields m !! k = None -> content !! k = None).
  { intros k Hcase Hf. rewrite Hk, HF, HP, Hf.
    assert (Ht : delete attributesInFields (Tags (getTargetFromMetric c m).2) !! k = None).
    { destruct (decide (k = attributesInFields)) as [->|Hne];
        [apply lookup_delete_eq|].
      rewrite lookup_delete_ne by congruence. rewrite HT.
      case_decide; tauto. }
    rewrite Ht. repeat case_decide; reflexivity. }
  split; [apply Hnone; tauto|]. split; [apply Hnone; tauto|].
  split; [apply Hnone; tauto|].
  intros k x Hx N1 N2 N3 Hfree. rewrite Hk, HF, HP.
  assert (Ht : delete attributesInFields (Tags (getTargetFromMetric c m).2) !! k = Some x).
  { rewrite lookup_delete_ne by congruence. rewrite HT. case_decide; tauto. }
  rewrite Ht. destruct Hfree as [Hf|Hin].
  - rewrite Hf. case_decide; reflexivity.
  - case_decide; [reflexivity | contradiction].
Qed.

End ContentTheorems.

(** ** The metric path, record by record *)

Section WriteTheorems.

Variable json_Marshal : gmap string value -> option string.
Variable UserAgent : string.

Implicit Types (s : state) (c : CloudWatchLogs) (m : Metric).

Lemma getDest_Log tg s : Log (plugin (getDest UserAgent tg s).2) = Log (plugin s).
Proof. unfold getDest. destruct (cwDests (plugin s) !! tg); reflexivity. Qed.

(** The destination a record is routed to, as it was before the record. *)
Lemma getDest_before tg s :
  wf s ->
  match heap s !! (getDest UserAgent tg s).1 with
  | Some cd0 => heap (getDest UserAgent tg s).2 !! (getDest UserAgent tg s).1 = Some cd0
  | None => heap (getDest UserAgent tg s).2 !! (getDest UserAgent tg s).1
            = Some (newDest UserAgent (plugin s) tg)
  end.
Proof.
  intros Hwf. unfold getDest.
  destruct (cwDests (plugin s) !! tg) as [l|] eqn:E; cbn [fst snd heap].
  - destruct (lookup_lt_is_Some_2 (heap s) l (Hwf tg l E)) as [cd Hcd].
    rewrite Hcd. reflexivity.
  - rewrite lookup_ge_None_2 by lia.
    rewrite lookup_app_r by lia. rewrite Nat.sub_diag. reflexivity.
Qed.


(** X7. A record with a log group tag, no raw entry field and only supported
    types among its unlisted fields has a content map; when [json.Marshal]
    renders it, nothing is logged and the destination registered for the
    record's group and stream (the stream tag, or the configured stream when
    the tag is absent) is in EMF mode and has, as the last call its pusher
    received, the non-blocking enqueue of the rendering with the record's
    time. *)
Theorem metric_record_is_enqueued m s g :
  wf s ->
  Tags m !! LogGroupNameTag = Some g ->
  HasField m LogEntryField = false ->
  (forall k v, Fields m !! k = Some v -> k ∉ promoted m -> is_Some (convertField v)) ->
  let s' := writeMetricAsStructuredLog json_Marshal UserAgent m s in
  let stream := default (LogStreamName (plugin s)) (Tags m !! LogStreamNameTag) in
  exists content m',
    buildContent (getTargetFromMetric (plugin s) m).2 = inl (content, m')
    /\ forall j, json_Marshal content = Some j ->
         Log (plugin s') = Log (plugin s)
         /\ exists l cd,
              cwDests (plugin s') !! mkTarget g stream = Some l
              /\ heap s' !! l = Some cd
              /\ isEMF cd = true
              /\ last (received (cwPusher cd))
                 = Some (CallAddEventNonBlocking (mkEvent j (MTime m))).
Proof.
  intros Hwf Hg Hv Hsup s' stream.
  destruct (getTargetFromMetric_metric (plugin s) m) as (HF & HP & HT & HH).
  assert (Htg : (getTargetFromMetric (plugin s) m).1 = (mkTarget g stream, None)).
  { unfold getTargetFromMetric, stream. rewrite Hg.
    destruct (Tags m !! LogStreamNameTag); reflexivity. }
  destruct (buildContent_supported (getTargetFromMetric (plugin s) m).2)
    as (content & m' & Hb).
  { intros k v. rewrite HF, HP. apply Hsup. }
  exists content, m'. split; [exact Hb|]. intros j Hj.
  assert (Hev : forall c, getLogEventFromMetric json_Marshal c (getTargetFromMetric (plugin s) m).2
                          = (Some (mkEvent j (MTime m)), c)).
  { intros c. unfold getLogEventFromMetric. rewrite HH, Hv, Hb, Hj.
    rewrite (buildContent_time _ _ _ Hb), HT. reflexivity. }
  destruct (writeMetricAsStructuredLog_unfold json_Marshal UserAgent m s Hwf)
    as (cd & Hcd & Hw).
  cbv zeta in Hcd, Hw. fold s' in Hw. rewrite Htg in Hcd, Hw. cbn [fst snd] in Hcd, Hw.
  rewrite Hev in Hw. cbn [fst snd] in Hw.
  split.
  - rewrite Hw. cbn [plugin]. apply getDest_Log.
  - eexists _, _. rewrite Hw. cbn [plugin heap].
    split; [apply getDest_lookup|].
    split; [apply list_lookup_insert_eq; eapply lookup_lt_Some, Hcd|].
    split.
    + rewrite AddEvent_isEMF. cbn [isEMF]. apply switchToEMF_isEMF.
    + unfold AddEvent. cbn [isEMF]. rewrite switchToEMF_isEMF. cbn. apply last_snoc.
Qed.

(** X8. Writing a record touches one destination only: every destination of
    the store other than the one registered for the record's target is after
    the record what it was before, and the map is the old one or the old one
    with the record's target added. *)
Theorem write_touches_one_destination m s l' cd :
  wf s ->
  heap s !! l' = Some cd ->
  let tg := (getTargetFromMetric (plugin s) m).1.1 in
  let s' := writeMetricAsStructuredLog json_Marshal UserAgent m s in
  (cwDests (plugin s') !! tg <> Some l' -> heap s' !! l' = Some cd)
  /\ (cwDests (plugin s') = cwDests (plugin s)
      \/ cwDests (plugin s') = <[tg := length (heap s)]> (cwDests (plugin s))).
Proof.
  intros Hwf Hl' tg s'.
  destruct (writeMetricAsStructuredLog_unfold json_Marshal UserAgent m s Hwf)
    as (cd1 & Hcd1 & Hw).
  cbv zeta in Hcd1, Hw. fold tg in Hcd1, Hw. fold s' in Hw.
  set (s0 := match (getTargetFromMetric (plugin s) m).1.2 with
             | Some e => _ | None => s end) in *.
  assert (H0 : heap s0 = heap s /\ cwDests (plugin s0) = cwDests (plugin s))
    by (subst s0; destruct ((getTargetFromMetric (plugin s) m).1.2); split; reflexivity).
  destruct H0 as [Hh0 Hc0].
  destruct (getLogEventFromMetric_plugin json_Marshal (plugin (getDest UserAgent tg s0).2)
              (getTargetFromMetric (plugin s) m).2) as (Hc & _).
  rewrite Hw. cbn [plugin heap]. rewrite Hc. split.
  - intros Hne. rewrite getDest_lookup in Hne.
    rewrite list_lookup_insert_ne by congruence.
    destruct (getDest_heapEvolves UserAgent tg s0 l' cd) as (cd' & H' & _);
      [rewrite Hh0; exact Hl'|].
    unfold getDest in *. destruct (cwDests (plugin s0) !! tg); cbn [snd heap] in *.
    + rewrite Hh0. exact Hl'.
    + rewrite Hh0. apply lookup_app_l_Some, Hl'.
  - unfold getDest. rewrite Hc0.
    destruct (cwDests (plugin s) !! tg); cbn [snd plugin cwDests setDests];
      [left | right]; rewrite ?Hc0, ?Hh0; destruct ((getTargetFromMetric (plugin s) m).1.2);
      reflexivity.
Qed.

(** X9. The metric path puts the destination of every record in EMF mode,
    the records with a raw entry field included, never changes its stop flag,
    and hands it at most one call, which is a non-blocking enqueue. *)
Theorem metric_path_forces_EMF m s :
  wf s ->
  let tg := (getTargetFromMetric (plugin s) m).1.1 in
  let s' := writeMetricAsStructuredLog json_Marshal UserAgent m s in
  exists l cd' calls,
    cwDests (plugin s') !! tg = Some l
    /\ heap s' !! l = Some cd'
    /\ isEMF cd' = true
    /\ (calls = [] \/ exists e, calls = [CallAddEventNonBlocking e])
    /\ match heap s !! l with
       | Some cd0 =>
           received (cwPusher cd') = (received (cwPusher cd0) ++ calls)%list
           /\ stopped cd' = stopped cd0
       | None => received (cwPusher cd') = calls /\ stopped cd' = false
       end.
Proof.
  intros Hwf tg s'.
  destruct (writeMetricAsStructuredLog_unfold json_Marshal UserAgent m s Hwf)
    as (cd1 & Hcd1 & Hw).
  cbv zeta in Hcd1, Hw. fold tg in Hcd1, Hw. fold s' in Hw.
  set (s0 := match (getTargetFromMetric (plugin s) m).1.2 with
             | Some e => _ | None => s end) in *.
  assert (Hwf0 : wf s0)
    by (subst s0; destruct ((getTargetFromMetric (plugin s) m).1.2); exact Hwf).
  assert (Hh0 : heap s0 = heap s)
    by (subst s0; destruct ((getTargetFromMetric (plugin s) m).1.2); reflexivity).
  pose proof (getDest_before tg s0 Hwf0) as Hbefore. rewrite Hh0 in Hbefore.
  set (l := (getDest UserAgent tg s0).1) in *.
  set (s1 := (getDest UserAgent tg s0).2) in *.
  set (ev := getLogEventFromMetric json_Marshal (plugin s1) (getTargetFromMetric (plugin s) m).2) in *.
  destruct (getLogEventFromMetric_plugin json_Marshal (plugin s1)
              (getTargetFromMetric (plugin s) m).2) as (Hc & _). fold ev in Hc.
  set (cd2 := mkDest (setRetryDuration metricRetryTimeout (cwPusher (switchToEMF cd1)))
                (isEMF (switchToEMF cd1)) (stopped (switchToEMF cd1))) in *.
  assert (H2 : isEMF cd2 = true /\ stopped cd2 = stopped cd1
               /\ received (cwPusher cd2) = received (cwPusher cd1)).
  { subst cd2. cbn. rewrite switchToEMF_isEMF, switchToEMF_stopped, switchToEMF_received.
    auto. }
  destruct H2 as (E2 & S2 & R2). clearbody cd2.
  exists l, (match ev.1 with Some e => AddEvent e cd2 | None => cd2 end),
    (match ev.1 with Some e => [CallAddEventNonBlocking e] | None => [] end).
  rewrite Hw. cbn [plugin heap]. rewrite Hc.
  split; [apply getDest_lookup|].
  split; [apply list_lookup_insert_eq; eapply lookup_lt_Some, Hcd1|].
  split; [destruct (ev.1); [rewrite AddEvent_isEMF|]; exact E2|].
  split; [destruct (ev.1); eauto|].
  assert (Hrec : received (cwPusher match ev.1 with Some e => AddEvent e cd2 | None => cd2 end)
                 = (received (cwPusher cd1)
                    ++ match ev.1 with Some e => [CallAddEventNonBlocking e] | None => [] end)%list
                 /\ stopped match ev.1 with Some e => AddEvent e cd2 | None => cd2 end
                    = stopped cd1).
  { destruct (ev.1) as [e|].
    - rewrite AddEvent_stopped. split; [|exact S2].
      unfold AddEvent. rewrite E2. cbn. rewrite R2. reflexivity.
    - rewrite app_nil_r. auto. }
  destruct Hrec as [Hr Hs].
  destruct (heap s !! l) as [cd0|].
  - rewrite Hbefore in Hcd1. inversion Hcd1; subst cd1. auto.
  - rewrite Hbefore in Hcd1. inversion Hcd1; subst cd1. rewrite Hr, Hs. auto.
Qed.

End WriteTheorems.

(** ** The log-forwarding path *)

Section PublishTheorems.

Implicit Types (cd : cwDest) (e : structuredLogEvent) (op : destOp).

Lemma Publish_cons e events cd : Publish (e :: events) cd = Publish events (publishOne cd e).
Proof. reflexivity. Qed.

Lemma AddEvent_received e cd :
  received (cwPusher (AddEvent e cd))
  = (received (cwPusher cd)
     ++ [if isEMF cd then CallAddEventNonBlocking e else CallAddEvent e])%list.
Proof. unfold AddEvent. destruct (isEMF cd); reflexivity. Qed.

Lemma publishOne_unfold cd e :
  publishOne cd e
  = AddEvent e (if negb (isEMF cd) && looksLikeEMF (Message e) then switchToEMF cd else cd).
Proof.
  unfold publishOne. destruct (isEMF cd); cbn; [reflexivity|].
  destruct (looksLikeEMF (Message e)); reflexivity.
Qed.

Lemma Publish_received_EMF events cd :
  isEMF cd = true ->
  received (cwPusher (Publish events cd).1)
  = (received (cwPusher cd) ++ (CallAddEventNonBlocking <$> events))%list.
Proof.
  revert cd. induction events as [|e events IH]; intros cd HE.
  - cbn. rewrite app_nil_r. reflexivity.
  - rewrite Publish_cons, IH by (rewrite publishOne_isEMF, HE; reflexivity).
    rewrite publishOne_unfold, HE. cbn [negb andb].
    rewrite AddEvent_received, HE, <- app_assoc. reflexivity.
Qed.

Lemma Publish_received_plain events cd :
  isEMF cd = false ->
  received (cwPusher (Publish events cd).1)
  = (received (cwPusher cd) ++ (CallAddEvent <$> plainPrefix events)
     ++ (CallAddEventNonBlocking <$> emfSuffix events))%list.
Proof.
  revert cd. induction events as [|e events IH]; intros cd HE.
  - cbn. rewrite app_nil_r. reflexivity.
  - rewrite Publish_cons. cbn [plainPrefix emfSuffix].
    destruct (looksLikeEMF (Message e)) eqn:EL.
    + rewrite Publish_received_EMF by (rewrite publishOne_isEMF, EL; apply orb_true_r).
      rewrite publishOne_unfold, HE, EL. cbn [negb andb].
      rewrite AddEvent_received, switchToEMF_isEMF, switchToEMF_received.
      rewrite <- app_assoc. reflexivity.
    + rewrite IH by (rewrite publishOne_isEMF, HE, EL; reflexivity).
      rewrite publishOne_unfold, HE, EL. cbn [negb andb].
      rewrite AddEvent_received, HE, <- app_assoc. reflexivity.
Qed.

Lemma plainPrefix_emfSuffix events : (plainPrefix events ++ emfSuffix events)%list = events.
Proof.
  induction events as [|e events IH]; cbn; [reflexivity|].
  destruct (looksLikeEMF (Message e)); cbn; [reflexivity | rewrite IH; reflexivity].
Qed.

Lemma eventsOf_app l1 l2 : eventsOf (l1 ++ l2) = (eventsOf l1 ++ eventsOf l2)%list.
Proof. apply omap_app. Qed.

Lemma eventsOf_blocking events : eventsOf (CallAddEvent <$> events) = events.
Proof. induction events as [|e events IH]; cbn; [reflexivity | f_equal; exact IH]. Qed.

Lemma eventsOf_nonblocking events : eventsOf (CallAddEventNonBlocking <$> events) = events.
Proof. induction events as [|e events IH]; cbn; [reflexivity | f_equal; exact IH]. Qed.

Lemma Publish_isEMF events cd :
  isEMF (Publish events cd).1
  = isEMF cd || existsb (fun e => looksLikeEMF (Message e)) events.
Proof.
  revert cd. induction events as [|e events IH]; intros cd.
  - cbn. rewrite orb_false_r. reflexivity.
  - rewrite Publish_cons, IH, publishOne_isEMF. cbn [existsb].
    rewrite orb_assoc. reflexivity.
Qed.

(** X10. [Publish] hands every event of its argument to the pusher, in
    order, whether or not the destination is stopped. In EMF mode every one
    goes by the non-blocking enqueue; in plain mode the events before the
    first message that looks like EMF go by the blocking enqueue and that
    message and all after it by the non-blocking one. The destination ends in
    EMF mode exactly when it started there or some message looked like EMF,
    and the result is the output-stopped error exactly when the destination
    is stopped. *)
Theorem Publish_forwards_every_event events cd :
  eventsOf (received (cwPusher (Publish events cd).1))
  = (eventsOf (received (cwPusher cd)) ++ events)%list
  /\ (isEMF cd = true ->
      received (cwPusher (Publish events cd).1)
      = (received (cwPusher cd) ++ (CallAddEventNonBlocking <$> events))%list)
  /\ (isEMF cd = false ->
      received (cwPusher (Publish events cd).1)
      = (received (cwPusher cd) ++ (CallAddEvent <$> plainPrefix events)
         ++ (CallAddEventNonBlocking <$> emfSuffix events))%list)
  /\ (plainPrefix events ++ emfSuffix events)%list = events
  /\ isEMF (Publish events cd).1
     = isEMF cd || existsb (fun e => looksLikeEMF (Message e)) events
  /\ (Publish events cd).2 = (if stopped cd then Some ErrOutputStopped else None).
Proof.
  split.
  { destruct (isEMF cd) eqn:HE.
    - rewrite Publish_received_EMF, eventsOf_app, eventsOf_nonblocking by exact HE.
      reflexivity.
    - rewrite Publish_received_plain, !eventsOf_app by exact HE.
      rewrite eventsOf_blocking, eventsOf_nonblocking, plainPrefix_emfSuffix.
      reflexivity. }
  split; [apply Publish_received_EMF|].
  split; [apply Publish_received_plain|].
  split; [apply plainPrefix_emfSuffix|].
  split; [apply Publish_isEMF|].
  pose proof (Publish_stopped events cd) as Hs.
  unfold Publish in *. cbn in *. rewrite Hs. reflexivity.
Qed.

Lemma switchToEMF_retryer cd : retryerOf (switchToEMF cd) = retryerOf cd.
Proof.
  unfold switchToEMF, retryerOf. destruct (isEMF cd); cbn; [reflexivity|].
  destruct (Service (cwPusher cd)) eqn:E; cbn; rewrite ?E; reflexivity.
Qed.

Lemma AddEvent_retryer e cd : retryerOf (AddEvent e cd) = retryerOf cd.
Proof. unfold AddEvent. destruct (isEMF cd); reflexivity. Qed.

Lemma Publish_retryer events cd : retryerOf (Publish events cd).1 = retryerOf cd.
Proof.
  revert cd. induction events as [|e events IH]; intros cd; [reflexivity|].
  rewrite Publish_cons, IH. unfold publishOne. rewrite AddEvent_retryer.
  destruct (negb (isEMF cd)); [|reflexivity].
  destruct (looksLikeEMF (Message e)); [apply switchToEMF_retryer | reflexivity].
Qed.

Lemma applyOp_retryer op cd :
  isSetRetryer op = false -> retryerOf (applyOp cd op) = retryerOf cd.
Proof.
  destruct op; cbn [applyOp isSetRetryer]; intros H; try discriminate.
  - apply Publish_retryer.
  - reflexivity.
  - apply AddEvent_retryer.
  - apply switchToEMF_retryer.
  - reflexivity.
Qed.

(** X11. On a destination whose service is the SDK client, [setRetryer]
    installs the retryer and leaves the mode, the stop flag and the build
    handlers alone, and the retryer stays installed through every later
    operation that is not another [setRetryer], the switch to EMF mode
    included. On any other service [setRetryer] does nothing. *)
Theorem setRetryer_persists r cd :
  (isSDK cd = true ->
     retryerOf (setRetryer r cd) = Some r
     /\ buildHandlers (setRetryer r cd) = buildHandlers cd
     /\ isEMF (setRetryer r cd) = isEMF cd
     /\ stopped (setRetryer r cd) = stopped cd
     /\ forall ops, existsb isSetRetryer ops = false ->
          retryerOf (runOps ops (setRetryer r cd)) = Some r)
  /\ (isSDK cd = false -> setRetryer r cd = cd).
Proof.
  split.
  - intros HS.
    assert (Hr : retryerOf (setRetryer r cd) = Some r).
    { unfold isSDK in HS. unfold setRetryer, retryerOf.
      destruct (Service (cwPusher cd)); [reflexivity | discriminate]. }
    split; [exact Hr|]. split; [apply setRetryer_handlers|].
    split; [apply setRetryer_isEMF|]. split; [apply setRetryer_stopped|].
    intros ops. unfold runOps. generalize (setRetryer r cd) Hr. clear.
    induction ops as [|op ops IH]; intros cd Hr Hno; cbn [fold_left]; [exact Hr|].
    cbn [existsb] in Hno. apply orb_false_iff in Hno as [H1 H2].
    apply IH; [|exact H2]. rewrite applyOp_retryer by exact H1. exact Hr.
  - intros HS. unfold isSDK in HS. unfold setRetryer.
    destruct (Service (cwPusher cd)); [discriminate | reflexivity].
Qed.

End PublishTheorems.

(** ** Where the two paths meet *)

Section SharedTheorems.

Variable json_Marshal : gmap string value -> option string.
Variable UserAgent : string.

Implicit Types (s : state) (c : CloudWatchLogs) (m : Metric).

(** The destination of a record after the record. *)
Lemma write_destination m s :
  wf s ->
  let tg := (getTargetFromMetric (plugin s) m).1.1 in
  let s' := writeMetricAsStructuredLog json_Marshal UserAgent m s in
  exists l cd,
    cwDests (plugin s') !! tg = Some l /\ heap s' !! l = Some cd
    /\ isEMF cd = true /\ RetryDuration (cwPusher cd) = metricRetryTimeout.
Proof.
  intros Hwf tg s'.
  destruct (writeMetricAsStructuredLog_unfold json_Marshal UserAgent m s Hwf)
    as (cd & Hcd & Hw).
  cbv zeta in Hcd, Hw. fold tg in Hcd, Hw. fold s' in Hw.
  set (s0 := match (getTargetFromMetric (plugin s) m).1.2 with
             | Some e => _ | None => s end) in *.
  set (s1 := (getDest UserAgent tg s0).2) in *.
  destruct (getLogEventFromMetric_plugin json_Marshal (plugin s1)
              (getTargetFromMetric (plugin s) m).2) as (Hc & _).
  eexists _, _. rewrite Hw. cbn [plugin heap]. rewrite Hc.
  split; [apply getDest_lookup|].
  split; [apply list_lookup_insert_eq; eapply lookup_lt_Some, Hcd|].
  destruct ((getLogEventFromMetric json_Marshal (plugin s1)
               (getTargetFromMetric (plugin s) m).2).1).
  - rewrite AddEvent_isEMF, AddEvent_RetryDuration. cbn.
    split; [apply switchToEMF_isEMF | reflexivity].
  - cbn. split; [apply switchToEMF_isEMF | reflexivity].
Qed.

(** X12. The metric path and the log-forwarding path share destinations:
    once a record tagged with a non-empty group and stream has been written,
    [CreateDest] on these names creates nothing and returns the record's
    destination, which is in EMF mode with the metric retry timeout, so that
    every event the log side publishes to it goes by the non-blocking
    enqueue. *)
Theorem CreateDest_after_Write m s g st :
  wf s ->
  Tags m !! LogGroupNameTag = Some g ->
  Tags m !! LogStreamNameTag = Some st ->
  g <> "" -> st <> "" ->
  let s' := writeMetricAsStructuredLog json_Marshal UserAgent m s in
  let r := CreateDest UserAgent g st s' in
  r.2 = s'
  /\ exists cd,
       heap s' !! r.1 = Some cd
       /\ isEMF cd = true
       /\ RetryDuration (cwPusher cd) = metricRetryTimeout
       /\ forall events,
            received (cwPusher (Publish events cd).1)
            = (received (cwPusher cd) ++ (CallAddEventNonBlocking <$> events))%list.
Proof.
  intros Hwf Hg Hst Hgne Hstne s' r.
  destruct (write_destination m s Hwf) as (l & cd & Hl & Hcd & HE & HR).
  assert (Htg : (getTargetFromMetric (plugin s) m).1.1 = mkTarget g st).
  { unfold getTargetFromMetric. rewrite Hg, Hst. reflexivity. }
  rewrite Htg in Hl. fold s' in Hl, Hcd.
  assert (Hr : r = (l, s')).
  { subst r. unfold CreateDest.
    destruct (String.eqb_spec g ""); [contradiction|].
    destruct (String.eqb_spec st ""); [contradiction|].
    apply getDest_known, Hl. }
  rewrite Hr. cbn [fst snd]. split; [reflexivity|].
  exists cd. split; [exact Hcd|]. split; [exact HE|]. split; [exact HR|].
  intros events. apply Publish_received_EMF, HE.
Qed.

(** X13. A stream tag that is present but empty is taken as it is: the
    record goes to the target with the empty stream, not to the configured
    stream, whereas [CreateDest] replaces an empty stream by the configured
    one. In a state reached from an empty map with a non-empty configured
    stream, such a record and [CreateDest] with an empty stream therefore end
    at two different destinations. *)
Theorem empty_stream_tag_is_not_defaulted c acts m g :
  cwDests c = ∅ ->
  LogStreamName c <> "" ->
  Tags m !! LogGroupNameTag = Some g ->
  Tags m !! LogStreamNameTag = Some "" ->
  let s := run json_Marshal UserAgent acts (mkState c []) in
  let s' := writeMetricAsStructuredLog json_Marshal UserAgent m s in
  let r := CreateDest UserAgent g "" s' in
  (getTargetFromMetric (plugin s) m).1 = (mkTarget g "", None)
  /\ exists l,
       cwDests (plugin r.2) !! mkTarget g "" = Some l
       /\ cwDests (plugin r.2)
            !! mkTarget (if decide (g = "") then LogGroupName c else g) (LogStreamName c)
          = Some r.1
       /\ r.1 <> l.
Proof.
  intros Hc Hdef Hg Hst s s' r.
  assert (Htg : (getTargetFromMetric (plugin s) m).1 = (mkTarget g "", None)).
  { unfold getTargetFromMetric. rewrite Hg, Hst. reflexivity. }
  split; [exact Htg|].
  assert (Hb : bound s) by (apply run_bound, bound_init, Hc).
  destruct (run_mono json_Marshal UserAgent acts (mkState c [])) as (_ & HG & HS).
  fold s in HG, HS. cbn in HG, HS.
  destruct (writeMetricAsStructuredLog_config json_Marshal UserAgent m s) as (HG' & HS').
  fold s' in HG', HS'.
  assert (Hb' : bound s') by (apply writeMetricAsStructuredLog_bound, Hb).
  destruct (write_destination m s (bound_wf s Hb)) as (l & cd & Hl & _).
  rewrite Htg in Hl. cbn [fst] in Hl. fold s' in Hl.
  assert (Hr : r = getDest UserAgent
                     (mkTarget (if decide (g = "") then LogGroupName c else g)
                        (LogStreamName c)) s').
  { subst r. unfold CreateDest. rewrite HG', HS', HG, HS. cbn.
    destruct (String.eqb_spec g ""); case_decide; try congruence; reflexivity. }
  assert (Hb2 : bound r.2) by (rewrite Hr; apply getDest_bound, Hb').
  assert (Hl2 : cwDests (plugin r.2) !! mkTarget g "" = Some l).
  { rewrite Hr. eapply lookup_weaken; [exact Hl | apply getDest_mono]. }
  assert (Hr2 : cwDests (plugin r.2)
                  !! mkTarget (if decide (g = "") then LogGroupName c else g) (LogStreamName c)
                = Some r.1).
  { rewrite Hr. apply getDest_lookup. }
  exists l. split; [exact Hl2|]. split; [exact Hr2|].
  intros Heq. rewrite Heq in Hr2.
  pose proof (bound_separate _ Hb2 _ _ _ Hl2 Hr2) as Hsame.
  inversion Hsame. congruence.
Qed.

End SharedTheorems.

(** ** How destinations are set up *)

Section SetupTheorems.

Variable json_Marshal : gmap string value -> option string.
Variable UserAgent : string.

Implicit Types (s : state) (c : CloudWatchLogs) (cd : cwDest).

Lemma configuredFrom_newDest c tg : configuredFrom UserAgent c (newDest UserAgent c tg).
Proof.
  exists (newClient UserAgent c).
  split; [reflexivity|]. split; [reflexivity|]. split; [reflexivity|].
  split; [|reflexivity]. cbn [isEMF newDest]. symmetry. apply app_nil_r.
Qed.

Lemma configuredFrom_settings c c' cd :
  sameSettings UserAgent c c' ->
  configuredFrom UserAgent c cd -> configuredFrom UserAgent c' cd.
Proof.
  intros [Hn Hf] (cl & H1 & H2 & H3 & H4 & H5).
  exists cl. rewrite Hn, Hf. auto.
Qed.

Lemma configuredFrom_AddEvent c e cd :
  configuredFrom UserAgent c cd -> configuredFrom UserAgent c (AddEvent e cd).
Proof.
  intros (cl & H1 & H2 & H3 & H4 & H5). exists cl.
  unfold AddEvent. destruct (isEMF cd) eqn:E; cbn; rewrite ?E; auto.
Qed.

Lemma configuredFrom_switchToEMF c cd :
  configuredFrom UserAgent c cd -> configuredFrom UserAgent c (switchToEMF cd).
Proof.
  intros (cl & H1 & H2 & H3 & H4 & H5). unfold switchToEMF.
  destruct (isEMF cd) eqn:E; cbn [negb].
  - exists cl. rewrite E. auto.
  - rewrite H1. exists (PushBackNamed emfHeader cl). cbn.
    rewrite H4, app_nil_r. auto.
Qed.

Lemma configuredFrom_Stop c cd :
  configuredFrom UserAgent c cd -> configuredFrom UserAgent c (Stop cd).
Proof. intros (cl & H1 & H2 & H3 & H4 & H5). exists cl. cbn. auto. Qed.

Lemma configuredFrom_setRetryer c r cd :
  configuredFrom UserAgent c cd -> configuredFrom UserAgent c (setRetryer r cd).
Proof.
  intros (cl & H1 & H2 & H3 & H4 & H5). unfold setRetryer. rewrite H1.
  eexists. cbn. split; [reflexivity|]. cbn. auto.
Qed.

Lemma configuredFrom_setRetryDuration c d cd :
  configuredFrom UserAgent c cd ->
  configuredFrom UserAgent c (mkDest (setRetryDuration d (cwPusher cd)) (isEMF cd) (stopped cd)).
Proof. intros (cl & H1 & H2 & H3 & H4 & H5). exists cl. cbn. auto. Qed.

Lemma configuredFrom_Publish c events cd :
  configuredFrom UserAgent c cd -> configuredFrom UserAgent c (Publish events cd).1.
Proof.
  revert cd. induction events as [|e events IH]; intros cd H; [exact H|].
  rewrite Publish_cons. apply IH. rewrite publishOne_unfold.
  apply configuredFrom_AddEvent.
  destruct (negb (isEMF cd) && looksLikeEMF (Message e));
    [apply configuredFrom_switchToEMF, H | exact H].
Qed.

Lemma configuredFrom_applyOp c op cd :
  configuredFrom UserAgent c cd -> configuredFrom UserAgent c (applyOp cd op).
Proof.
  intros H. destruct op; cbn [applyOp].
  - apply configuredFrom_Publish, H.
  - apply configuredFrom_Stop, H.
  - apply configuredFrom_AddEvent, H.
  - apply configuredFrom_switchToEMF, H.
  - apply configuredFrom_setRetryer, H.
  - apply configuredFrom_setRetryDuration, H.
Qed.

Lemma Forall_modifyDest (P : cwDest -> Prop) l f (h : list cwDest) :
  (forall cd, P cd -> P (f cd)) -> Forall P h -> Forall P (modifyDest l f h).
Proof.
  intros Hf Hh. unfold modifyDest. destruct (h !! l) as [cd|] eqn:E; [|exact Hh].
  apply Forall_insert; [exact Hh|]. apply Hf. eapply Forall_lookup_1; eassumption.
Qed.

Lemma Forall_settings c c' (h : list cwDest) :
  sameSettings UserAgent c c' ->
  Forall (configuredFrom UserAgent c) h -> Forall (configuredFrom UserAgent c') h.
Proof.
  intros Hs H. eapply Forall_impl; [exact H|].
  intros cd. apply configuredFrom_settings, Hs.
Qed.

Lemma sameSettings_refl c : sameSettings UserAgent c c.
Proof. split; reflexivity. Qed.

Lemma sameSettings_trans c1 c2 c3 :
  sameSettings UserAgent c1 c2 -> sameSettings UserAgent c2 c3 ->
  sameSettings UserAgent c1 c3.
Proof. intros [A1 A2] [B1 B2]. split; congruence. Qed.

Lemma sameSettings_logf x c : sameSettings UserAgent c (logf x c).
Proof. split; reflexivity. Qed.

Lemma sameSettings_getLogEvent c m :
  sameSettings UserAgent c (getLogEventFromMetric json_Marshal c m).2.
Proof.
  unfold getLogEventFromMetric.
  destruct (HasField m LogEntryField).
  - destruct (Fields m !! LogEntryField) as [[]|]; cbn [snd]; split; reflexivity.
  - destruct (buildContent m) as [[content m']|[k v]]; cbn [snd]; [|split; reflexivity].
    destruct (json_Marshal content); cbn [snd]; split; reflexivity.
Qed.

Lemma getDest_allConfigured tg s :
  allConfigured UserAgent s ->
  allConfigured UserAgent (getDest UserAgent tg s).2
  /\ sameSettings UserAgent (plugin s) (plugin (getDest UserAgent tg s).2).
Proof.
  intros H. unfold getDest, allConfigured.
  destruct (cwDests (plugin s) !! tg); cbn [snd plugin heap].
  - split; [exact H | apply sameSettings_refl].
  - split; [|split; reflexivity].
    apply Forall_app. split.
    + eapply Forall_settings; [|exact H]. split; reflexivity.
    + apply Forall_singleton.
      eapply configuredFrom_settings; [|apply configuredFrom_newDest].
      split; reflexivity.
Qed.

Lemma writeMetricAsStructuredLog_allConfigured m s :
  allConfigured UserAgent s ->
  allConfigured UserAgent (writeMetricAsStructuredLog json_Marshal UserAgent m s)
  /\ sameSettings UserAgent (plugin s)
       (plugin (writeMetricAsStructuredLog json_Marshal UserAgent m s)).
Proof.
  intros H. unfold writeMetricAsStructuredLog.
  destruct (getTargetFromMetric (plugin s) m) as [[tg err] m1].
  set (s0 := match err with Some e => _ | None => s end).
  assert (H0 : allConfigured UserAgent s0 /\ sameSettings UserAgent (plugin s) (plugin s0)).
  { subst s0. destruct err; [|split; [exact H | apply sameSettings_refl]].
    split; [|apply sameSettings_logf].
    unfold allConfigured. cbn [plugin heap].
    eapply Forall_settings; [apply sameSettings_logf | exact H]. }
  destruct H0 as [Ha0 Hs0].
  destruct (getDest_allConfigured tg s0 Ha0) as [Ha1 Hs1].
  destruct (getDest UserAgent tg s0) as [l s1]. cbn [fst snd] in *.
  assert (Hs01 := sameSettings_trans _ _ _ Hs0 Hs1).
  destruct (heap s1 !! l).
  - assert (H2 : Forall (configuredFrom UserAgent (plugin s1))
                   (modifyDest l
                      (fun cd => mkDest (setRetryDuration metricRetryTimeout (cwPusher cd))
                                   (isEMF cd) (stopped cd))
                      (modifyDest l switchToEMF (heap s1)))).
    { apply Forall_modifyDest; [intros cd; apply configuredFrom_setRetryDuration|].
      apply Forall_modifyDest; [intros cd; apply configuredFrom_switchToEMF | exact Ha1]. }
    pose proof (sameSettings_getLogEvent (plugin s1) m1) as Hs2.
    destruct (getLogEventFromMetric json_Marshal (plugin s1) m1) as [[e|] c'];
      cbn [snd] in Hs2; unfold allConfigured; cbn [plugin heap];
      (split; [|eapply sameSettings_trans; eassumption]);
      (eapply Forall_settings; [exact Hs2|]); [|exact H2].
    apply Forall_modifyDest; [intros cd; apply configuredFrom_AddEvent | exact H2].
  - unfold allConfigured. cbn [plugin heap].
    split; [|eapply sameSettings_trans; [exact Hs01 | apply sameSettings_logf]].
    eapply Forall_settings; [apply sameSettings_logf | exact Ha1].
Qed.

Lemma act_allConfigured a s :
  allConfigured UserAgent s ->
  allConfigured UserAgent (act json_Marshal UserAgent s a)
  /\ sameSettings UserAgent (plugin s) (plugin (act json_Marshal UserAgent s a)).
Proof.
  intros H. destruct a as [group stream|metrics| |l op]; cbn [act].
  - apply getDest_allConfigured, H.
  - unfold Write. revert s H. induction metrics as [|m ms IH]; intros s H; cbn [fold_left].
    + split; [exact H | apply sameSettings_refl].
    + destruct (writeMetricAsStructuredLog_allConfigured m s H) as [H1 S1].
      destruct (IH _ H1) as [H2 S2].
      split; [exact H2 | eapply sameSettings_trans; eassumption].
  - split; [|apply sameSettings_refl]. unfold allConfigured, Close. cbn [plugin heap].
    unfold allConfigured in H.
    generalize (map_to_list (cwDests (plugin s))) (heap s) H.
    intros kvs. induction kvs as [|kv kvs IH]; intros h Hh; cbn [fold_left]; [exact Hh|].
    apply IH. apply Forall_modifyDest; [intros cd; apply configuredFrom_Stop | exact Hh].
  - split; [|apply sameSettings_refl]. unfold allConfigured. cbn [plugin heap].
    apply Forall_modifyDest; [intros cd; apply configuredFrom_applyOp | exact H].
Qed.

Lemma run_allConfigured acts s :
  allConfigured UserAgent s ->
  allConfigured UserAgent (run json_Marshal UserAgent acts s)
  /\ sameSettings UserAgent (plugin s) (plugin (run json_Marshal UserAgent acts s)).
Proof.
  unfold run. revert s. induction acts as [|a acts IH]; intros s H; cbn [fold_left].
  - split; [exact H | apply sameSettings_refl].
  - destruct (act_allConfigured a s H) as [H1 S1]. destruct (IH _ H1) as [H2 S2].
    split; [exact H2 | eapply sameSettings_trans; eassumption].
Qed.

(** X14. In every state the plugin reaches from an empty map, each
    destination of the store talks to an SDK client that carries the plugin's
    credentials and endpoint override and flushes at the plugin's interval;
    the build handlers of that client are those the SDK installed when it
    made the client, then the compression handler for [PutLogEvents] and the
    [User-Agent] header, in this order, followed by the EMF header exactly
    when the destination is in EMF mode. *)
Theorem destinations_are_configured_from_the_plugin c acts l cd :
  cwDests c = ∅ ->
  let s := run json_Marshal UserAgent acts (mkState c []) in
  heap s !! l = Some cd ->
  exists cl,
    Service (cwPusher cd) = SDKClient cl
    /\ Credentials cl
       = mkCredentialConfig (Region c) (AccessKey c) (SecretKey c) (RoleARN c)
           (Profile c) (Filename c) (Token c)
    /\ Endpoint cl = EndpointOverride c
    /\ Build cl
       = (sdkBuildHandlers
          ++ [RequestCompressionHandler ["PutLogEvents"];
              CustomHeaderHandler "User-Agent" UserAgent]
          ++ if isEMF cd then [emfHeader] else [])%list
    /\ FlushTimeout (cwPusher cd) = ForceFlushInterval c.
Proof.
  intros Hc s Hl.
  destruct (run_allConfigured acts (mkState c [])) as [Ha Hs].
  { unfold allConfigured. cbn. constructor. }
  fold s in Ha, Hs. cbn [plugin] in Hs.
  pose proof (Forall_lookup_1 _ _ _ _ Ha Hl) as Hcd.
  assert (Hback : sameSettings UserAgent (plugin s) c)
    by (destruct Hs as [A B]; split; congruence).
  destruct (configuredFrom_settings _ _ _ Hback Hcd) as (cl & H1 & H2 & H3 & H4 & H5).
  exists cl. split; [exact H1|]. split; [exact H2|]. split; [exact H3|].
  split; [|exact H5]. rewrite H4. reflexivity.
Qed.

End SetupTheorems.

(** ** The further theorems at concrete inputs *)

Lemma one_destination_per_target_witness :
  cwDests initPlugin = ∅
  /\ length (heap (run exampleMarshal agent
                     [ACreateDest "g" "s"; AWrite [metricUsage; metricNaN]] state0))
     = size (cwDests (plugin (run exampleMarshal agent
                                [ACreateDest "g" "s"; AWrite [metricUsage; metricNaN]] state0))).
Proof.
  split; [reflexivity|].
  exact (proj2 (proj2 (one_destination_per_target exampleMarshal agent initPlugin
                         [ACreateDest "g" "s"; AWrite [metricUsage; metricNaN]] eq_refl))).
Defined.

Lemma destinations_only_evolve_witness :
  heap (getDest agent (mkTarget "g" "s") state0).2 !! 0
  = Some (newDest agent initPlugin (mkTarget "g" "s"))
  /\ exists cd',
       heap (run exampleMarshal agent [AWrite [metricUsage]; AClose]
               (getDest agent (mkTarget "g" "s") state0).2) !! 0 = Some cd'
       /\ PTarget (cwPusher cd') = mkTarget "g" "s".
Proof.
  split; [reflexivity|].
  destruct (proj2 (destinations_only_evolve exampleMarshal agent
                     [AWrite [metricUsage]; AClose]
                     (getDest agent (mkTarget "g" "s") state0).2 0
                     (newDest agent initPlugin (mkTarget "g" "s")) eq_refl))
    as (cd' & H1 & H2 & _).
  exists cd'. split; [exact H1 | exact H2].
Defined.

Lemma Close_stops_every_destination_witness :
  cwDests initPlugin = ∅
  /\ plugin (Close (run exampleMarshal agent [ACreateDest "g" "s"] state0))
     = plugin (run exampleMarshal agent [ACreateDest "g" "s"] state0).
Proof.
  split; [reflexivity|].
  exact (proj1 (Close_stops_every_destination exampleMarshal agent initPlugin
                  [ACreateDest "g" "s"] eq_refl)).
Defined.

Lemma content_map_key_by_key_witness :
  buildContent metricPromoted
  = inl ({[ "ch" := VOther "chan int"; "host" := VString "h1";
            "usage" := VFloat64 (float64_of_Z 3) ]},
         mkMetric "cpu" {[ "host" := "h1" ]} {[ "usage" := VInt64 3 ]}
           (mkTime 1700000000 0))
  /\ Name (mkMetric "cpu" {[ "host" := "h1" ]} {[ "usage" := VInt64 3 ]}
             (mkTime 1700000000 0)) = Name metricPromoted.
Proof.
  assert (H : buildContent metricPromoted
              = inl ({[ "ch" := VOther "chan int"; "host" := VString "h1";
                        "usage" := VFloat64 (float64_of_Z 3) ]},
                     mkMetric "cpu" {[ "host" := "h1" ]} {[ "usage" := VInt64 3 ]}
                       (mkTime 1700000000 0)))
    by (vm_compute; reflexivity).
  split; [exact H|].
  exact (proj1 (proj2 (proj2 (content_map_key_by_key metricPromoted _ _ H)))).
Defined.

Lemma routing_tags_do_not_leak_witness :
  Tags metricUsage !! LogGroupNameTag = Some "g"
  /\ buildContent (getTargetFromMetric initPlugin metricUsage).2
     = inl ({[ "host" := VString "h1"; "usage" := VFloat64 (float64_of_Z 3) ]},
            mkMetric "cpu" {[ "host" := "h1" ]} {[ "usage" := VInt64 3 ]}
              (mkTime 1700000000 0))
  /\ ({[ "host" := VString "h1"; "usage" := VFloat64 (float64_of_Z 3) ]}
        : gmap string value) !! LogGroupNameTag = None.
Proof.
  assert (H : buildContent (getTargetFromMetric initPlugin metricUsage).2
              = inl ({[ "host" := VString "h1"; "usage" := VFloat64 (float64_of_Z 3) ]},
                     mkMetric "cpu" {[ "host" := "h1" ]} {[ "usage" := VInt64 3 ]}
                       (mkTime 1700000000 0)))
    by (vm_compute; reflexivity).
  split; [reflexivity|]. split; [exact H|].
  exact (proj1 (routing_tags_do_not_leak initPlugin metricUsage "g" _ _ eq_refl H) eq_refl).
Defined.

Lemma metricUsage_supported :
  forall k v, Fields metricUsage !! k = Some v -> k ∉ promoted metricUsage ->
              is_Some (convertField v).
Proof.
  intros k v H _. unfold metricUsage in H. cbn [Fields] in H.
  apply lookup_singleton_Some in H as [_ <-]. eexists. reflexivity.
Defined.

Lemma metric_record_is_enqueued_witness :
  wf state0
  /\ Tags metricUsage !! LogGroupNameTag = Some "g"
  /\ HasField metricUsage LogEntryField = false
  /\ exists content m',
       buildContent (getTargetFromMetric (plugin state0) metricUsage).2
       = inl (content, m').
Proof.
  split; [exact wf_state0|]. split; [reflexivity|]. split; [reflexivity|].
  destruct (metric_record_is_enqueued exampleMarshal agent metricUsage state0 "g"
              wf_state0 eq_refl eq_refl metricUsage_supported)
    as (content & m' & H & _).
  exists content, m'. exact H.
Defined.

Lemma wf_one_destination : wf (getDest agent (mkTarget "other" "s") state0).2.
Proof. apply getDest_wf, wf_state0. Defined.

Lemma write_touches_one_destination_witness :
  wf (getDest agent (mkTarget "other" "s") state0).2
  /\ heap (getDest agent (mkTarget "other" "s") state0).2 !! 0
     = Some (newDest agent initPlugin (mkTarget "other" "s"))
  /\ heap (writeMetricAsStructuredLog exampleMarshal agent metricUsage
             (getDest agent (mkTarget "other" "s") state0).2) !! 0
     = Some (newDest agent initPlugin (mkTarget "other" "s")).
Proof.
  split; [exact wf_one_destination|]. split; [reflexivity|].
  apply (proj1 (write_touches_one_destination exampleMarshal agent metricUsage
                  (getDest agent (mkTarget "other" "s") state0).2 0
                  (newDest agent initPlugin (mkTarget "other" "s"))
                  wf_one_destination eq_refl)).
  vm_compute. discriminate.
Defined.

Lemma metric_path_forces_EMF_witness :
  wf state0
  /\ exists l cd',
       heap (writeMetricAsStructuredLog exampleMarshal agent metricNoGroup state0) !! l
       = Some cd'
       /\ isEMF cd' = true.
Proof.
  split; [exact wf_state0|].
  destruct (metric_path_forces_EMF exampleMarshal agent metricNoGroup state0 wf_state0)
    as (l & cd' & calls & _ & H1 & H2 & _).
  exists l, cd'. split; [exact H1 | exact H2].
Defined.

Lemma CreateDest_after_Write_witness :
  wf state0
  /\ Tags metricUsage !! LogGroupNameTag = Some "g"
  /\ Tags metricUsage !! LogStreamNameTag = Some "s"
  /\ (CreateDest agent "g" "s"
        (writeMetricAsStructuredLog exampleMarshal agent metricUsage state0)).2
     = writeMetricAsStructuredLog exampleMarshal agent metricUsage state0.
Proof.
  split; [exact wf_state0|]. split; [reflexivity|]. split; [reflexivity|].
  refine (proj1 (CreateDest_after_Write exampleMarshal agent metricUsage state0 "g" "s"
                   wf_state0 eq_refl eq_refl _ _)); discriminate.
Defined.

Lemma empty_stream_tag_is_not_defaulted_witness :
  cwDests pluginWithStream = ∅
  /\ Tags metricEmptyStream !! LogGroupNameTag = Some "g"
  /\ Tags metricEmptyStream !! LogStreamNameTag = Some ""
  /\ (getTargetFromMetric pluginWithStream metricEmptyStream).1 = (mkTarget "g" "", None).
Proof.
  split; [reflexivity|]. split; [reflexivity|]. split; [reflexivity|].
  refine (proj1 (empty_stream_tag_is_not_defaulted exampleMarshal agent pluginWithStream []
                   metricEmptyStream "g" eq_refl _ eq_refl eq_refl)).
  discriminate.
Defined.

Lemma destinations_are_configured_from_the_plugin_witness :
  cwDests initPlugin = ∅
  /\ heap (run exampleMarshal agent [ACreateDest "g" "s"; ADest 0 OpSwitchToEMF] state0) !! 0
     = Some (switchToEMF (newDest agent initPlugin (mkTarget "g" "s")))
  /\ exists cl,
       Service (cwPusher (switchToEMF (newDest agent initPlugin (mkTarget "g" "s"))))
       = SDKClient cl
       /\ Build cl
          = [SDKHandler "core.SDKVersionUserAgentHandler";
             SDKHandler "core.AddHostExecEnvUserAgentHander";
             SDKHandler "awssdk.jsonrpc.Build";
             RequestCompressionHandler ["PutLogEvents"];
             CustomHeaderHandler "User-Agent" agent;
             emfHeader].
Proof.
  assert (H : heap (run exampleMarshal agent
                      [ACreateDest "g" "s"; ADest 0 OpSwitchToEMF] state0) !! 0
              = Some (switchToEMF (newDest agent initPlugin (mkTarget "g" "s"))))
    by (vm_compute; reflexivity).
  split; [reflexivity|]. split; [exact H|].
  destruct (destinations_are_configured_from_the_plugin exampleMarshal agent initPlugin
              [ACreateDest "g" "s"; ADest 0 OpSwitchToEMF] 0 _ eq_refl H)
    as (cl & H1 & _ & _ & H4 & _).
  exists cl. split; [exact H1 | exact H4].
Defined.
